(** * Countdown continual-learning data generator

    A shallow embedding of [experiments/continual/data_gen.py]: the prompt
    template [make_prefix], the generation pass [generate_samples] with its
    shared pseudo-random source, the record assembler [process_fn] and the
    group orchestrator [generate_group_data].

    Python integers are [Z], strings are [string], the float ratings are
    primitive floats.  The module-level generator of Python's [random] is a
    state that every call threads; exceptions and the unbounded retry loop
    are results of type [outcome].  Console output, the progress bar, the
    creation of directories and the parquet files are left out. *)

From Stdlib Require Import ZArith List String Ascii Bool Lia.
From Stdlib Require Import DecimalString Floats Permutation.
Import ListNotations.

Local Open Scope string_scope.
Local Open Scope Z_scope.

(** ** Results of a call *)

(** The exceptions the generator can meet. *)
Inductive exn : Set :=
| IndexError
| ValueError
| UnboundLocalError.

(** A call returns a value, raises, or is still inside a retry loop when the
    iteration bound of the model is used up. *)
Inductive outcome (A : Type) : Type :=
| Ret (a : A)
| Raise (e : exn)
| OutOfFuel.

Arguments Ret {A} a.
Arguments Raise {A} e.
Arguments OutOfFuel {A}.

Module Outcome.

Definition bind {A B} (o : outcome A) (k : A -> outcome B) : outcome B :=
  match o with
  | Ret a => k a
  | Raise e => Raise e
  | OutOfFuel => OutOfFuel
  end.

Definition map {A B} (f : A -> B) (o : outcome A) : outcome B :=
  bind o (fun a => Ret (f a)).

End Outcome.

(** ** Python text helpers *)

(** [str(n)] for an integer. *)
Definition str_int (n : Z) : string := NilZero.string_of_int (Z.to_int n).

(** [sep.join(parts)]. *)
Fixpoint join (sep : string) (parts : list string) : string :=
  match parts with
  | [] => ""
  | [p] => p
  | p :: rest => p ++ sep ++ join sep rest
  end.

(** [str(l)] for a list of integers: ["[4, 6, 1]"]. *)
Definition str_list (l : list Z) : string :=
  "[" ++ join ", " (map str_int l) ++ "]".

(** The newline character of the templates. *)
Definition nl : string := String (ascii_of_nat 10) EmptyString.

(** [needle in hay] for two strings. *)
Fixpoint contains (needle hay : string) : bool :=
  prefix needle hay ||
  match hay with
  | EmptyString => false
  | String _ hay' => contains needle hay'
  end.

(** [seq[i]]: negative indices count from the end, anything outside raises. *)
Definition py_index {A} (l : list A) (i : Z) : outcome A :=
  let n := Z.of_nat (List.length l) in
  let j := if i <? 0 then i + n else i in
  if (j <? 0) || (n <=? j) then Raise IndexError
  else match nth_error l (Z.to_nat j) with
       | Some x => Ret x
       | None => Raise IndexError
       end.

(** ** The prompt template *)

(** The two fields of a data point that [make_prefix] reads. *)
Record DataPoint : Type := {
  dp_target : Z;
  dp_nums : list Z
}.

Definition task_sentence (numbers : list Z) (target : Z) (operators : list string) : string :=
  "Using the numbers " ++ str_list numbers
  ++ ", create an equation that equals " ++ str_int target
  ++ ". You can use basic arithmetic operations (" ++ join ", " operators
  ++ ") and each number can only be used once. Show your work in <think> </think> tags. And return the final answer in <answer> </answer> tags, for example <answer> (1 + 2) / 3 </answer>.".

Definition base_prefix (numbers : list Z) (target : Z) (operators : list string) : string :=
  "A conversation between User and Assistant. The user asks a question, and the Assistant solves it. The assistant first thinks about the reasoning process in the mind and then provides the user with the answer."
  ++ nl ++ "User: " ++ task_sentence numbers target operators
  ++ nl ++ "Assistant: Let me solve this step by step."
  ++ nl ++ "<think>".

Definition qwen_prefix (numbers : list Z) (target : Z) (operators : list string) : string :=
  "<|im_start|>system" ++ nl
  ++ "You are a helpful assistant. You first thinks about the reasoning process in the mind and then provides the user with the answer.<|im_end|>"
  ++ nl ++ "<|im_start|>user" ++ nl ++ " " ++ task_sentence numbers target operators
  ++ "<|im_end|>" ++ nl ++ "<|im_start|>assistant" ++ nl
  ++ "Let me solve this step by step." ++ nl ++ "<think>".

(** [make_prefix(dp, operators, template_type)].  The local [prefix] is
    assigned in the two branches only; the final [return prefix] raises
    [UnboundLocalError] when neither was taken. *)
Definition make_prefix (dp : DataPoint) (operators : list string)
    (template_type : string) : outcome string :=
  let target := dp_target dp in
  let numbers := dp_nums dp in
  if String.eqb template_type "base" then
    Ret (base_prefix numbers target operators)
  else if String.eqb template_type "qwen-instruct" then
    Ret (qwen_prefix numbers target operators)
  else Raise UnboundLocalError.

(** The default of the [template_type] parameter. *)
Definition default_template_type : string := "base".

(** ** The pseudo-random source *)

(** Python's [random] module, taken as an interface: [random.seed(a)] builds
    a generator state from an integer, and every draw goes through
    [_randbelow(n)], which returns an integer and the next state. *)
Class Random (rng : Type) : Type := {
  seed : Z -> rng;
  randbelow : Z -> rng -> Z * rng
}.

(** [_randbelow(n)] answers in [range(n)]. *)
Definition randbelow_in_range {rng} `{Random rng} : Prop :=
  forall n s, 0 < n -> 0 <= fst (randbelow n s) < n.

(** The calls this file makes on the [random] module, in program order. *)
Inductive rand_call : Set :=
| CallSeed (a : Z)
| CallRandint (a b : Z)
| CallChoice (n : nat).

Definition is_seed (c : rand_call) : bool :=
  match c with
  | CallSeed _ => true
  | _ => false
  end.

(** The state a generation pass threads: the module-level generator, and the
    record of the calls made on it so far. *)
Record world (rng : Type) : Type := {
  rand_state : rng;
  rand_calls : list rand_call
}.

Arguments rand_state {rng} w.
Arguments rand_calls {rng} w.

(** ** The Puzzle Engine *)

(** [CountDown(max_target, start_size, operators)]. *)
Record CountDown : Type := {
  max_target : Z;
  start_size : Z;
  operators : list string
}.

(** The two heuristics and the two search functions that are imported and
    put in the lists [random.choice] draws from. *)
Inductive Heuristic : Set := sum_heuristic | mult_heuristic.
Inductive Search : Set := Dfs | Bfs.

(** [f.__name__] for these functions. *)
Definition heuristic_name (h : Heuristic) : string :=
  match h with
  | sum_heuristic => "sum_heuristic"
  | mult_heuristic => "mult_heuristic"
  end.

Definition search_name (f : Search) : string :=
  match f with
  | Dfs => "dfs"
  | Bfs => "bfs"
  end.

Definition search_eqb (f g : Search) : bool :=
  match f, g with
  | Dfs, Dfs | Bfs, Bfs => true
  | _, _ => false
  end.

(** Modelled from the spec: the Puzzle Engine, that is the class [CountDown]
    and the functions [dfs] and [bfs] of
    [examples/data_preprocess/countdown_generate.py], which this file imports
    and whose source is missing.  By section 6 of the spec,
    [generate] (the spec's [construct]) is deterministic given its own
    pseudo-random draws, which come from the shared generator, and returns
    the numbers with a solution or with none; the searches return a trace,
    [convert_to_path] (the spec's [to_optimal_path]) renders a solution. *)
Class PuzzleEngine (rng : Type) : Type := {
  Solution : Type;
  generate : CountDown -> Z -> rng -> (list Z * option Solution) * rng;
  convert_to_path : CountDown -> Z -> list Z -> Solution -> string;
  dfs : Z -> list Z -> Heuristic -> Z -> string;
  bfs : Z -> list Z -> Z -> Heuristic -> string
}.

Arguments Solution {rng} _.

(** Arithmetic expressions over the numbers of an instance. *)
Inductive expr : Set :=
| Num (n : Z)
| Op (o : string) (l r : expr).

Fixpoint leaves (e : expr) : list Z :=
  match e with
  | Num n => [n]
  | Op _ l r => (leaves l ++ leaves r)%list
  end.

Fixpoint operators_used (e : expr) : list string :=
  match e with
  | Num _ => []
  | Op o l r => o :: (operators_used l ++ operators_used r)%list
  end.

(** One operator of the vocabulary on two integers; a division has to be
    exact. *)
Definition apply_op (o : string) (a b : Z) : option Z :=
  if String.eqb o "+" then Some (a + b)
  else if String.eqb o "-" then Some (a - b)
  else if String.eqb o "*" then Some (a * b)
  else if String.eqb o "/" then
    if (b =? 0) || negb (a mod b =? 0) then None else Some (a / b)
  else None.

Fixpoint eval (e : expr) : option Z :=
  match e with
  | Num n => Some n
  | Op o l r =>
      match eval l, eval r with
      | Some a, Some b => apply_op o a b
      | _, _ => None
      end
  end.

(** Modelled from the spec: the invariant of a Puzzle Instance (section 3),
    "there must exist at least one valid arithmetic expression using every
    number exactly once, restricted to the instance's operator group, that
    evaluates to target". *)
Definition solvable (group : list string) (numbers : list Z) (goal : Z) : Prop :=
  exists e, Permutation (leaves e) numbers
            /\ incl (operators_used e) group
            /\ eval e = Some goal.

(** Modelled from the spec: the contract of the missing [CountDown.generate],
    whose Reference Solution is "guaranteed valid by construction": a
    solution that is not null comes with numbers that reach the target under
    the operators of the [CountDown] object. *)
Definition engine_sound {rng} `{PuzzleEngine rng} : Prop :=
  forall cd goal s numbers sol s',
    generate cd goal s = (numbers, Some sol, s') ->
    solvable (operators cd) numbers goal.

(** ** Samples and records *)

(** One element of the list [samples]. *)
Record Sample (Sol : Type) : Type := {
  target : Z;
  nums : list Z;
  solution : Sol;
  search_path : string;
  rating : float;
  optimal_path : string;
  search_type : string;
  heuristic : string
}.

Arguments target {Sol} s.
Arguments nums {Sol} s.
Arguments solution {Sol} s.
Arguments search_path {Sol} s.
Arguments rating {Sol} s.
Arguments optimal_path {Sol} s.
Arguments search_type {Sol} s.
Arguments heuristic {Sol} s.

(** The dictionary [data] that [process_fn] returns. *)
Record Message : Type := {
  role : string;
  content : string
}.

Record GroundTruth (Sol : Type) : Type := {
  gt_target : Z;
  gt_numbers : list Z;
  gt_solution : Sol;
  gt_search_path : string;
  gt_rating : float;
  gt_optimal_path : string
}.

Arguments gt_target {Sol} g.
Arguments gt_numbers {Sol} g.
Arguments gt_solution {Sol} g.
Arguments gt_search_path {Sol} g.
Arguments gt_rating {Sol} g.
Arguments gt_optimal_path {Sol} g.

Record RewardModel (Sol : Type) : Type := {
  style : string;
  ground_truth : GroundTruth Sol
}.

Arguments style {Sol} r.
Arguments ground_truth {Sol} r.

Record ExtraInfo : Type := {
  split : string;
  index : Z;
  operator_group : string;
  ei_search_type : string;
  ei_heuristic : string
}.

Record TrainingRecord (Sol : Type) : Type := {
  data_source : string;
  prompt : list Message;
  ability : string;
  reward_model : RewardModel Sol;
  extra_info : ExtraInfo
}.

Arguments data_source {Sol} t.
Arguments prompt {Sol} t.
Arguments ability {Sol} t.
Arguments reward_model {Sol} t.
Arguments extra_info {Sol} t.

(** A row of the dataset after [Dataset.map]: the columns of the example it
    was computed from, updated with the dictionary [process_fn] returned. *)
Record Row (Sol : Type) : Type := {
  example : Sample Sol;
  fields : TrainingRecord Sol
}.

Arguments example {Sol} r.
Arguments fields {Sol} r.

(** ** The monad of a generation pass *)

(** A computation reads and updates the generator and ends in an [outcome]. *)
Definition M (rng A : Type) : Type := world rng -> outcome (A * world rng).

Definition ret {rng A} (a : A) : M rng A := fun w => Ret (a, w).

Definition bind {rng A B} (m : M rng A) (k : A -> M rng B) : M rng B :=
  fun w =>
    match m w with
    | Ret (a, w') => k a w'
    | Raise e => Raise e
    | OutOfFuel => OutOfFuel
    end.

Definition lift {rng A} (o : outcome A) : M rng A :=
  fun w => Outcome.map (fun a => (a, w)) o.

Declare Scope gen_scope.
Delimit Scope gen_scope with gen.

Notation "x <- m ;; k" := (bind m (fun x => k))
  (at level 61, m at next level, right associativity) : gen_scope.
Notation "' p <- m ;; k" := (bind m (fun x => match x with p => k end))
  (at level 61, p pattern, m at next level, right associativity) : gen_scope.
Notation "m ;; k" := (bind m (fun _ => k))
  (at level 61, right associativity) : gen_scope.
Notation "'let?' x := o 'in' k" := (Outcome.bind o (fun x => k))
  (at level 10, x name, o at level 100, k at level 200).

Local Open Scope gen_scope.

(** The configuration of [DataGenerator.__init__]. *)
Definition operator_groups : list (list string) :=
  [ ["+"];
    ["+"; "-"];
    ["+"; "-"; "*"];
    ["+"; "-"; "*"; "/"] ].

Definition group_names : list string :=
  [ "plus";
    "plus_minus";
    "plus_minus_mul";
    "plus_minus_mul_div" ].

(** The column dictionary [data] of [create_dataset]. *)
Record Columns (Sol : Type) : Type := {
  col_target : list Z;
  col_nums : list (list Z);
  col_solution : list Sol;
  col_search_path : list string;
  col_rating : list float;
  col_optimal_path : list string;
  col_search_type : list string;
  col_heuristic : list string
}.

Arguments col_target {Sol} c.
Arguments col_nums {Sol} c.
Arguments col_solution {Sol} c.
Arguments col_search_path {Sol} c.
Arguments col_rating {Sol} c.
Arguments col_optimal_path {Sol} c.
Arguments col_search_type {Sol} c.
Arguments col_heuristic {Sol} c.

Section Generator.

Context {rng : Type} {R : Random rng} {E : PuzzleEngine rng}.

#[local] Abbreviation Sol := (Solution E).

(** *** Calls on the [random] module *)

Definition log_call (c : rand_call) : M rng unit :=
  fun w => Ret (tt, {| rand_state := rand_state w;
                       rand_calls := (rand_calls w ++ [c])%list |}).

Definition draw (n : Z) : M rng Z :=
  fun w =>
    let (i, s') := randbelow n (rand_state w) in
    Ret (i, {| rand_state := s'; rand_calls := rand_calls w |}).

(** [random.seed(a)] replaces the state of the generator. *)
Definition random_seed (a : Z) : M rng unit :=
  fun w => Ret (tt, {| rand_state := seed a;
                       rand_calls := (rand_calls w ++ [CallSeed a])%list |}).

(** [random.randint(a, b)], that is [a + _randbelow(b - a + 1)]. *)
Definition randint (a b : Z) : M rng Z :=
  log_call (CallRandint a b) ;;
  if b <? a then lift (Raise ValueError)
  else i <- draw (b - a + 1) ;; ret (a + i).

(** [random.choice(seq)], that is [seq[_randbelow(len(seq))]]. *)
Definition choice {A} (seq : list A) : M rng A :=
  log_call (CallChoice (List.length seq)) ;;
  match seq with
  | [] => lift (Raise IndexError)
  | _ => i <- draw (Z.of_nat (List.length seq)) ;; lift (py_index seq i)
  end.

(** [cd.generate(target)]: the engine draws from the shared generator. *)
Definition cd_generate (cd : CountDown) (goal : Z)
    : M rng (list Z * option Sol) :=
  fun w =>
    let (r, s') := generate cd goal (rand_state w) in
    Ret (r, {| rand_state := s'; rand_calls := rand_calls w |}).

(** *** The generation pass *)

(** The retry loop [while not ok], run for at most [fuel] iterations. *)
Fixpoint find_instance (fuel : nat) (cd : CountDown)
    : M rng (Z * list Z * Sol) :=
  match fuel with
  | O => fun _ => OutOfFuel
  | S fuel' =>
      target <- randint 10 1000 ;;
      '(nums, solution) <- cd_generate cd target ;;
      match solution with
      | Some solution => ret (target, nums, solution)
      | None => find_instance fuel' cd
      end
  end.

(** The label [f"{search.__name__}{'_' + str(beam_size) if search == bfs else ''}"].
    [beam_size] is a local of [generate_samples] that only the beam branch
    assigns: reading it while it is unbound raises. *)
Definition search_label (search : Search) (beam_size : option Z) : outcome string :=
  let? suffix :=
    if search_eqb search Bfs then
      match beam_size with
      | Some b => Ret ("_" ++ str_int b)
      | None => Raise UnboundLocalError
      end
    else Ret "" in
  Ret (search_name search ++ suffix).

(** The body of the [for] loop.  [beam_size] is the binding left by the
    earlier iterations; the body returns the sample and the new binding. *)
Definition sample_body (fuel : nat) (operators : list string) (beam_size : option Z)
    : M rng (Sample Sol * option Z) :=
  start_size <- randint 3 4 ;;
  let cd := {| max_target := 1000; start_size := start_size;
               operators := operators |} in
  '(target, nums, solution) <- find_instance fuel cd ;;
  let no_backtrack_trace := convert_to_path cd target nums solution in
  heuristic <- choice [sum_heuristic; mult_heuristic] ;;
  search <- choice [Dfs; Bfs] ;;
  '(search_path, beam_size) <-
    (if search_eqb search Dfs then
       ret (dfs target nums heuristic target, beam_size)
     else
       beam_size <- choice [1; 2; 3; 4; 5] ;;
       ret (bfs target nums beam_size heuristic, Some beam_size)) ;;
  let max_rating := if start_size =? 3 then 3 * 4 * 4 else 1152 in
  let rating := if contains "Goal Reached" search_path
                then 1.0%float else 0.0%float in
  search_type <- lift (search_label search beam_size) ;;
  ret ({| target := target;
          nums := nums;
          solution := solution;
          search_path := search_path;
          rating := rating;
          optimal_path := no_backtrack_trace;
          search_type := search_type;
          heuristic := heuristic_name heuristic |}, beam_size).

(** [for _ in range(num_samples)], appending to [samples]. *)
Fixpoint samples_loop (fuel : nat) (ops : list string) (n : nat)
    (beam_size : option Z) (samples : list (Sample Sol))
    : M rng (list (Sample Sol)) :=
  match n with
  | O => ret samples
  | S n' =>
      '(x, beam_size') <- sample_body fuel ops beam_size ;;
      samples_loop fuel ops n' beam_size' (samples ++ [x])%list
  end.

(** [generate_samples(num_samples, seed_offset)], with the variables
    [operators] and [group_idx] of the enclosing call as parameters. *)
Definition generate_samples (fuel : nat) (ops : list string) (group_idx : Z)
    (num_samples : Z) (seed_offset : Z) : M rng (list (Sample Sol)) :=
  random_seed (42 + group_idx + seed_offset) ;;
  samples_loop fuel ops (Z.to_nat num_samples) None [].

(** *** The dataset *)

Definition to_columns (samples : list (Sample Sol)) : Columns Sol :=
  {| col_target := map target samples;
     col_nums := map nums samples;
     col_solution := map solution samples;
     col_search_path := map search_path samples;
     col_rating := map rating samples;
     col_optimal_path := map optimal_path samples;
     col_search_type := map search_type samples;
     col_heuristic := map heuristic samples |}.

Fixpoint rows_of (ts : list Z) (ns : list (list Z)) (ss : list Sol)
    (ps : list string) (rs : list float) (os sts hs : list string)
    : list (Sample Sol) :=
  match ts, ns, ss, ps, rs, os, sts, hs with
  | t :: ts', n :: ns', s :: ss', p :: ps', r :: rs', o :: os', st :: sts', h :: hs' =>
      {| target := t; nums := n; solution := s; search_path := p;
         rating := r; optimal_path := o; search_type := st; heuristic := h |}
      :: rows_of ts' ns' ss' ps' rs' os' sts' hs'
  | _, _, _, _, _, _, _, _ => []
  end.

(** [Dataset.from_dict(data)]: the rows of a column dictionary. *)
Definition from_dict (c : Columns Sol) : list (Sample Sol) :=
  rows_of (col_target c) (col_nums c) (col_solution c) (col_search_path c)
          (col_rating c) (col_optimal_path c) (col_search_type c)
          (col_heuristic c).

(** [process_fn(example, idx)], with [split] and [group_idx] of the
    enclosing calls as parameters. *)
Definition process_fn (group_idx : Z) (split_name : string)
    (ex : Sample Sol) (idx : Z) : outcome (TrainingRecord Sol) :=
  let? question :=
    make_prefix {| dp_target := target ex; dp_nums := nums ex |}
                ["+"; "-"; "*"; "/"] default_template_type in
  let? group_name := py_index group_names group_idx in
  Ret {| data_source := "countdown_continual";
         prompt := [ {| role := "user"; content := question |} ];
         ability := "math";
         reward_model :=
           {| style := "rule";
              ground_truth :=
                {| gt_target := target ex;
                   gt_numbers := nums ex;
                   gt_solution := solution ex;
                   gt_search_path := search_path ex;
                   gt_rating := rating ex;
                   gt_optimal_path := optimal_path ex |} |};
         extra_info :=
           {| split := split_name;
              index := idx;
              operator_group := group_name;
              ei_search_type := search_type ex;
              ei_heuristic := heuristic ex |} |}.

(** [dataset.map(function=f, with_indices=True)] from index [idx] on. *)
Fixpoint dataset_map (f : Sample Sol -> Z -> outcome (TrainingRecord Sol))
    (idx : Z) (rows : list (Sample Sol)) : outcome (list (Row Sol)) :=
  match rows with
  | [] => Ret []
  | ex :: rows' =>
      let? fs := f ex idx in
      let? rest := dataset_map f (idx + 1) rows' in
      Ret ({| example := ex; fields := fs |} :: rest)
  end.

(** [create_dataset(samples, split)]; writing the parquet file is left
    out. *)
Definition create_dataset (group_idx : Z) (samples : list (Sample Sol))
    (split_name : string) : outcome (list (Row Sol)) :=
  let data := to_columns samples in
  let dataset := from_dict data in
  dataset_map (process_fn group_idx split_name) 0 dataset.

(** [generate_group_data(group_idx, train_size, test_size)]. *)
Definition generate_group_data (fuel : nat) (group_idx train_size test_size : Z)
    : M rng (list (Row Sol) * list (Row Sol)) :=
  ops <- lift (py_index operator_groups group_idx) ;;
  group_name <- lift (py_index group_names group_idx) ;;
  train_samples <- generate_samples fuel ops group_idx train_size 0 ;;
  let test_samples := train_samples in
  train_dataset <- lift (create_dataset group_idx train_samples "train") ;;
  test_dataset <- lift (create_dataset group_idx test_samples "test") ;;
  ret (train_dataset, test_dataset).

(** *** The script *)

(** The loop [for group_idx in ...] of the script, which calls
    [generate_group_data] on each index in turn; the datasets of the groups
    are collected in the order they are written. *)
Fixpoint run_groups (fuel : nat) (train_size test_size : Z) (idxs : list Z)
    : M rng (list (list (Row Sol) * list (Row Sol))) :=
  match idxs with
  | [] => ret []
  | group_idx :: rest =>
      datasets <- generate_group_data fuel group_idx train_size test_size ;;
      others <- run_groups fuel train_size test_size rest ;;
      ret (datasets :: others)
  end.

(** The block under [if __name__ == "__main__"]: every group of
    [operator_groups], with the default sizes of [generate_group_data]. *)
Definition main (fuel : nat) : M rng (list (list (Row Sol) * list (Row Sol))) :=
  run_groups fuel 7680 7680
    (map Z.of_nat (seq 0 (List.length operator_groups))).

End Generator.

(** ** A small generator and engine to run the pass on *)

Module Demo.

(** A linear congruential generator in the place of the Mersenne Twister. *)
Definition lcg_next (s : Z) : Z := (1103515245 * s + 12345) mod 2147483648.

#[export] Instance lcg : Random Z := {|
  seed a := a mod 2147483648;
  randbelow n s := let s' := lcg_next s in ((s' / 65536) mod n, s')
|}.

(** The sum of the numbers, from the left. *)
Fixpoint sum_expr (acc : expr) (l : list Z) : expr :=
  match l with
  | [] => acc
  | x :: l' => sum_expr (Op "+" acc (Num x)) l'
  end.

(** An engine that splits the target in two summands and pads with zeros;
    it gives up when its draw is 0 or when the group has no addition. *)
Definition toy_generate (cd : CountDown) (goal : Z) (s : Z)
    : (list Z * option expr) * Z :=
  let (r, s') := randbelow 3 s in
  let padding := repeat 0 (Z.to_nat (start_size cd - 2)) in
  let numbers := (goal - r) :: r :: padding in
  if (r =? 0) || negb (existsb (String.eqb "+") (operators cd))
  then (numbers, None, s')
  else (numbers, Some (sum_expr (Num (goal - r)) (r :: padding)), s').

Definition toy_trace (numbers : list Z) (found : bool) : string :=
  "Current State: " ++ str_list numbers ++ nl
  ++ (if found then "Goal Reached" else "No solution found").

#[export] Instance engine : PuzzleEngine Z := {|
  Solution := expr;
  generate := toy_generate;
  convert_to_path cd goal numbers sol :=
    str_list numbers ++ " -> " ++ str_int goal;
  dfs goal numbers h threshold :=
    toy_trace numbers (match h with sum_heuristic => true | mult_heuristic => false end);
  bfs goal numbers beam_size h := toy_trace numbers (3 <=? beam_size)
|}.

(** The state before any call of the program. *)
Definition w0 : world Z := {| rand_state := 0; rand_calls := [] |}.

(** Another ambient state. *)
Definition w1 : world Z := {| rand_state := 77; rand_calls := [CallSeed 5] |}.

(** A pass of three samples for the group [plus_minus]. *)
Definition pass (fuel : nat) (w : world Z) : outcome (list (Sample expr) * world Z) :=
  generate_samples fuel ["+"; "-"] 1 3 0 w.

(** The two splits of the group [plus_minus], three records each. *)
Definition group (test_size : Z)
    : outcome (list (Row expr) * list (Row expr) * world Z) :=
  generate_group_data 5 1 3 test_size w0.

End Demo.


(** ** Notions the properties are stated with *)

(** [range(n)]. *)
Definition range (n : nat) : list Z := map Z.of_nat (seq 0 n).

(** The column [extra_info.index] of a dataset. *)
Definition indices {Sol} (rows : list (Row Sol)) : list Z :=
  map (fun r => index (extra_info (fields r))) rows.

(** A row with another [extra_info.split] tag and nothing else changed. *)
Definition with_split {Sol} (s : string) (row : Row Sol) : Row Sol :=
  let t := fields row in
  let i := extra_info t in
  {| example := example row;
     fields :=
       {| data_source := data_source t;
          prompt := prompt t;
          ability := ability t;
          reward_model := reward_model t;
          extra_info :=
            {| split := s;
               index := index i;
               operator_group := operator_group i;
               ei_search_type := ei_search_type i;
               ei_heuristic := ei_heuristic i |} |} |}.

(** The retry loop finds an instance within [fuel] iterations, from any
    state of the generator. *)
Definition engine_finds {rng} `{Random rng} `{PuzzleEngine rng} (fuel : nat) : Prop :=
  forall cd w, exists r, find_instance fuel cd w = Ret r.

(** The widths the beam search is given, and, for an answer [i] of
    [_randbelow(5)], the width [random.choice] returns. *)
Definition beam_widths : list Z := [1; 2; 3; 4; 5].

Definition width_at (i : Z) : outcome Z := py_index beam_widths i.

(** How many of the [n] answers [0 .. n - 1] of [_randbelow(n)] make
    [random.choice] return [v]. *)
Definition answers_giving (v : Z) (n : nat) : nat :=
  List.length
    (filter (fun i => match width_at i with
                      | Ret u => u =? v
                      | _ => false
                      end)
            (range n)).

(** One sample of a pass, read as the draws made from the state [w]: the
    size, the instance the retry loop finds, the heuristic, the search, and
    for the beam search the width, each draw from the state the one before
    left; [w'] is the state after the last draw of the sample.  The label and
    the search path of the sample are those of the search and the width
    drawn. *)
Definition labelled_step {rng} `{Random rng} `{E : PuzzleEngine rng}
    (fuel : nat) (ops : list string)
    (w : world rng) (x : Sample (Solution E)) (w' : world rng) : Prop :=
  exists size h search w1 w2 w3 w4,
    randint 3 4 w = Ret (size, w1)
    /\ find_instance fuel
         {| max_target := 1000; start_size := size; operators := ops |} w1
       = Ret (target x, nums x, solution x, w2)
    /\ choice [sum_heuristic; mult_heuristic] w2 = Ret (h, w3)
    /\ choice [Dfs; Bfs] w3 = Ret (search, w4)
    /\ match search with
       | Dfs =>
           w' = w4
           /\ search_type x = search_name Dfs
           /\ search_path x = dfs (target x) (nums x) h (target x)
       | Bfs =>
           exists width,
             choice beam_widths w4 = Ret (width, w')
             /\ width_at (fst (randbelow 5 (rand_state w4))) = Ret width
             /\ In width beam_widths
             /\ search_type x = search_name Bfs ++ "_" ++ str_int width
             /\ search_path x = bfs (target x) (nums x) width h
       end.

(** The samples of a pass in order, each one drawn from the state the one
    before left. *)
Fixpoint labelled_run {rng} `{Random rng} `{E : PuzzleEngine rng}
    (fuel : nat) (ops : list string)
    (w : world rng) (samples : list (Sample (Solution E))) (w' : world rng)
    : Prop :=
  match samples with
  | [] => w' = w
  | x :: rest =>
      exists w1, labelled_step fuel ops w x w1
                 /\ labelled_run fuel ops w1 rest w'
  end.

(** The calls on the generator that one sample costs: the size, one target
    for each of the [k] iterations of the retry loop, the heuristic, the
    search, and the beam width when the search is the beam search. *)
Definition sample_calls (k : nat) (beam : bool) : list rand_call :=
  ([CallRandint 3 4] ++ repeat (CallRandint 10 1000) k
   ++ [CallChoice 2; CallChoice 2]
   ++ (if beam then [CallChoice 5] else []))%list.

(** Whether the label of a sample is that of a beam search. *)
Definition is_beam {Sol} (x : Sample Sol) : bool :=
  negb (String.eqb (search_type x) "dfs").

(** The ground truth of a sample, field by field. *)
Definition ground_truth_of {Sol} (x : Sample Sol) : GroundTruth Sol :=
  {| gt_target := target x;
     gt_numbers := nums x;
     gt_solution := solution x;
     gt_search_path := search_path x;
     gt_rating := rating x;
     gt_optimal_path := optimal_path x |}.

(** A computation raises only exceptions that satisfy [P]. *)
Definition raises_only {rng A} (P : exn -> Prop) (m : M rng A) : Prop :=
  forall w e, m w = Raise e -> P e.

(** Three properties of computations, each kept by [ret], [lift] and
    [bind]: the calls recorded are draws, the record of calls has no
    influence, and a result is kept when the bound of the loops grows. *)

Definition no_seed (cs : list rand_call) : bool :=
  forallb (fun c => negb (is_seed c)) cs.

Definition draws_only {rng A} (m : M rng A) : Prop :=
  forall w a w', m w = Ret (a, w') ->
    exists cs, rand_calls w' = (rand_calls w ++ cs)%list /\ no_seed cs = true.

Definition agree {rng A} (o1 o2 : outcome (A * world rng)) : Prop :=
  match o1, o2 with
  | Ret (a1, w1), Ret (a2, w2) => a1 = a2 /\ rand_state w1 = rand_state w2
  | Raise e1, Raise e2 => e1 = e2
  | OutOfFuel, OutOfFuel => True
  | _, _ => False
  end.

Definition log_blind {rng A} (m : M rng A) : Prop :=
  forall w1 w2, rand_state w1 = rand_state w2 -> agree (m w1) (m w2).

Definition refines {rng A} (m m' : M rng A) : Prop :=
  forall w r, m w = Ret r -> m' w = Ret r.

(** A computation behaves the same from any two states of the generator. *)
Definition ambient {rng A} (m : M rng A) : Prop :=
  forall w1 w2, agree (m w1) (m w2).

(** * Properties *)

(** ** The helpers on examples *)

Example str_int_examples :
  str_int 0 = "0" /\ str_int 1000 = "1000" /\ str_int (-5) = "-5".
Proof. repeat split. Qed.

Example str_list_examples :
  str_list [4; 6; 1] = "[4, 6, 1]" /\ str_list [] = "[]".
Proof. split; reflexivity. Qed.

Example join_operators : join ", " ["+"; "-"; "*"; "/"] = "+, -, *, /".
Proof. reflexivity. Qed.

Example contains_examples :
  contains "Goal Reached" ("Moving to Node #0" ++ nl ++ "Goal Reached") = true
  /\ contains "Goal Reached" "No solution found" = false
  /\ contains "Goal Reached" "Goal reached" = false.
Proof. repeat split. Qed.

Example py_index_examples :
  py_index group_names 1 = Ret "plus_minus"
  /\ py_index group_names (-1) = Ret "plus_minus_mul_div"
  /\ py_index group_names 4 = Raise IndexError
  /\ py_index group_names (-5) = Raise IndexError.
Proof. repeat split. Qed.

Example make_prefix_qwen :
  make_prefix {| dp_target := 24; dp_nums := [4; 6; 1] |} ["+"; "-"] "qwen-instruct"
  = Ret (qwen_prefix [4; 6; 1] 24 ["+"; "-"]).
Proof. reflexivity. Qed.

Example search_label_examples :
  search_label Dfs None = Ret "dfs"
  /\ search_label Dfs (Some 4) = Ret "dfs"
  /\ search_label Bfs (Some 3) = Ret "bfs_3"
  /\ search_label Bfs None = Raise UnboundLocalError.
Proof. repeat split. Qed.

(** With the small engine, one iteration of the retry loop per sample is
    not enough for six samples of the group [plus]; five are. *)
Example demo_pass_fuel :
  @generate_samples Z Demo.lcg Demo.engine 1 ["+"] 0 6 0 Demo.w0 = OutOfFuel
  /\ Outcome.map (fun r => map target (fst r))
       (@generate_samples Z Demo.lcg Demo.engine 5 ["+"] 0 6 0 Demo.w0)
     = Ret [196; 804; 413; 581; 304; 507].
Proof. split; vm_compute; reflexivity. Qed.

(** ** Text *)

Lemma prefix_append (needle hay : string) :
  prefix needle hay = true <-> exists post, hay = needle ++ post.
Proof.
  revert hay. induction needle as [|a needle IH]; intros hay.
  - destruct hay; simpl; split; intros _; eauto.
  - destruct hay as [|b hay]; simpl.
    + split; [discriminate | intros [post H]; discriminate].
    + destruct (ascii_dec a b) as [->|Hab].
      * rewrite IH. split; intros [post H]; exists post.
        -- now rewrite H.
        -- now injection H.
      * split; [discriminate | intros [post H]].
        injection H as H1 _. now elim Hab.
Qed.

(** [contains] is the substring test. *)
Lemma contains_spec (needle hay : string) :
  contains needle hay = true
  <-> exists pre post, hay = pre ++ needle ++ post.
Proof.
  induction hay as [|c hay IH].
  - cbn [contains]. rewrite orb_false_r, prefix_append. split.
    + intros [post H]. now exists "", post.
    + intros [pre [post H]]. destruct pre; [now exists post | discriminate].
  - cbn [contains]. rewrite orb_true_iff, prefix_append, IH. split.
    + intros [[post H] | [pre [post H]]].
      * now exists "", post.
      * exists (String c pre), post. simpl. now rewrite H.
    + intros [pre [post H]]. destruct pre as [|d pre].
      * left. now exists post.
      * right. simpl in H. injection H as _ H. now exists pre, post.
Qed.

Lemma float_one_zero : 1%float <> 0%float.
Proof.
  intro H.
  assert (E : PrimFloat.eqb 1 0 = PrimFloat.eqb 0 0) by (rewrite H; reflexivity).
  vm_compute in E. discriminate E.
Qed.

(** ** Indexing *)

Lemma py_index_In {A} (l : list A) (i : Z) (x : A) :
  py_index l i = Ret x -> In x l.
Proof.
  unfold py_index. destruct (_ || _); [discriminate|].
  destruct (nth_error l _) as [y|] eqn:Hn; [|discriminate].
  intros [= <-]. eapply nth_error_In; eauto.
Qed.

Lemma py_index_in_range {A} (l : list A) (i : Z) :
  0 <= i < Z.of_nat (List.length l) -> exists x, py_index l i = Ret x.
Proof.
  intros Hi. unfold py_index.
  destruct (i <? 0) eqn:Hneg; [lia|].
  destruct (i <? 0); [discriminate|].
  destruct (Z.of_nat (List.length l) <=? i) eqn:Hle; [lia|]. simpl.
  destruct (nth_error l (Z.to_nat i)) as [x|] eqn:Hn; [eauto|].
  apply nth_error_None in Hn. lia.
Qed.

(** ** The monad *)

Lemma outcome_bind_Ret {A B} (o : outcome A) (k : A -> outcome B) (b : B) :
  Outcome.bind o k = Ret b -> exists a, o = Ret a /\ k a = Ret b.
Proof. destruct o; simpl; [eauto | discriminate | discriminate]. Qed.

Lemma bind_Ret {rng A B} (m : M rng A) (k : A -> M rng B) w b w' :
  bind m k w = Ret (b, w') ->
  exists a w1, m w = Ret (a, w1) /\ k a w1 = Ret (b, w').
Proof.
  unfold bind. destruct (m w) as [[a w1]| |]; [eauto | discriminate | discriminate].
Qed.

Lemma lift_Ret {rng A} (o : outcome A) (w : world rng) a w' :
  lift o w = Ret (a, w') -> o = Ret a /\ w' = w.
Proof.
  unfold lift. destruct o; simpl; [|discriminate|discriminate].
  now intros [= -> ->].
Qed.

Lemma ret_Ret {rng A} (a : A) (w : world rng) b w' :
  ret a w = Ret (b, w') -> b = a /\ w' = w.
Proof. unfold ret. now intros [= -> ->]. Qed.

(** Peels the outermost steps of a computation that returned. *)
Ltac step_in H :=
  match type of H with
  | bind _ _ _ = Ret _ =>
      let a := fresh "a" in
      let w := fresh "w" in
      let H1 := fresh "H" in
      apply bind_Ret in H; destruct H as (a & w & H1 & H)
  | lift _ _ = Ret _ =>
      let H1 := fresh "H" in
      apply lift_Ret in H; destruct H as [H H1]; subst
  | ret _ _ = Ret _ =>
      let H1 := fresh "H" in
      apply ret_Ret in H; destruct H as [H H1]; subst
  end.

Section Combinators.

Context {rng : Type} {A B : Type}.

Lemma draws_only_ret (a : A) : draws_only (rng:=rng) (ret a).
Proof.
  intros w b w' H. step_in H. exists []. now rewrite app_nil_r.
Qed.

Lemma draws_only_lift (o : outcome A) : draws_only (rng:=rng) (lift o).
Proof.
  intros w b w' H. step_in H. exists []. now rewrite app_nil_r.
Qed.

Lemma draws_only_bind (m : M rng A) (k : A -> M rng B) :
  draws_only m -> (forall a, draws_only (k a)) -> draws_only (bind m k).
Proof.
  intros Hm Hk w b w' H. step_in H.
  destruct (Hm _ _ _ H0) as (cs1 & E1 & N1).
  destruct (Hk _ _ _ _ H) as (cs2 & E2 & N2).
  exists (cs1 ++ cs2)%list. split.
  - now rewrite E2, E1, app_assoc.
  - unfold no_seed in *. now rewrite forallb_app, N1, N2.
Qed.

Lemma log_blind_ret (a : A) : log_blind (rng:=rng) (ret a).
Proof. intros w1 w2 H. simpl. auto. Qed.

Lemma log_blind_lift (o : outcome A) : log_blind (rng:=rng) (lift o).
Proof. intros w1 w2 H. destruct o; simpl; auto. Qed.

Lemma log_blind_bind (m : M rng A) (k : A -> M rng B) :
  log_blind m -> (forall a, log_blind (k a)) -> log_blind (bind m k).
Proof.
  intros Hm Hk w1 w2 H. specialize (Hm w1 w2 H). unfold bind, agree in *.
  destruct (m w1) as [[a1 v1]| |], (m w2) as [[a2 v2]| |];
    try contradiction; auto.
  destruct Hm as [<- Hv]. apply (Hk a1 v1 v2 Hv).
Qed.

Lemma refines_refl (m : M rng A) : refines m m.
Proof. intros w r H. exact H. Qed.

Lemma refines_bind (m m' : M rng A) (k k' : A -> M rng B) :
  refines m m' -> (forall a, refines (k a) (k' a)) ->
  refines (bind m k) (bind m' k').
Proof.
  intros Hm Hk w [b w'] H. step_in H.
  unfold bind. rewrite (Hm _ _ H0). now apply Hk.
Qed.

End Combinators.

Section Properties.

Context {rng : Type} {R : Random rng} {E : PuzzleEngine rng}.

#[local] Abbreviation Sol := (Solution E).

(** *** The calls on the generator *)

Lemma randint_Ret a b w x w' :
  randint a b w = Ret (x, w') ->
  a <= b
  /\ x = a + fst (randbelow (b - a + 1) (rand_state w))
  /\ rand_state w' = snd (randbelow (b - a + 1) (rand_state w))
  /\ rand_calls w' = (rand_calls w ++ [CallRandint a b])%list.
Proof.
  unfold randint, bind, log_call, draw, ret. simpl.
  destruct (b <? a) eqn:Hba; [discriminate|].
  destruct (randbelow _ _) as [i s']. simpl.
  intros [= <- <-]. simpl. repeat split. lia.
Qed.

Lemma choice_Ret {A} (seq : list A) w x w' :
  choice seq w = Ret (x, w') ->
  py_index seq (fst (randbelow (Z.of_nat (List.length seq)) (rand_state w))) = Ret x
  /\ rand_state w' = snd (randbelow (Z.of_nat (List.length seq)) (rand_state w))
  /\ rand_calls w' = (rand_calls w ++ [CallChoice (List.length seq)])%list.
Proof.
  unfold choice, bind, log_call, draw, lift. destruct seq as [|y seq]; [discriminate|].
  cbn -[py_index Z.of_nat].
  destruct (randbelow _ _) as [i s']. cbn -[py_index Z.of_nat].
  destruct (py_index _ _) as [z| |]; simpl; try discriminate.
  intros [= <- <-]. simpl. auto.
Qed.

Lemma choice_In {A} (seq : list A) w x w' :
  choice seq w = Ret (x, w') -> In x seq.
Proof. intros H. apply choice_Ret in H. eapply py_index_In, H. Qed.

Lemma cd_generate_Ret cd goal w r w' :
  cd_generate cd goal w = Ret (r, w') ->
  generate cd goal (rand_state w) = (r, rand_state w')
  /\ rand_calls w' = rand_calls w.
Proof.
  unfold cd_generate. destruct (generate _ _ _) as [r0 s'].
  intros [= <- <-]. auto.
Qed.

Lemma draws_only_randint a b : draws_only (randint a b).
Proof.
  intros w x w' H. apply randint_Ret in H as (_ & _ & _ & H).
  now exists [CallRandint a b].
Qed.

Lemma draws_only_choice {A} (seq : list A) : draws_only (choice seq).
Proof.
  intros w x w' H. apply choice_Ret in H as (_ & _ & H).
  now exists [CallChoice (List.length seq)].
Qed.

Lemma draws_only_cd_generate cd goal : draws_only (cd_generate cd goal).
Proof.
  intros w x w' H. apply cd_generate_Ret in H as (_ & H).
  exists []. now rewrite app_nil_r.
Qed.

Lemma log_blind_randint a b : log_blind (randint a b).
Proof.
  intros w1 w2 H. unfold randint, bind, log_call, draw, ret, lift. simpl.
  destruct (b <? a); simpl; [reflexivity|]. rewrite H.
  destruct (randbelow _ _). simpl. auto.
Qed.

Lemma log_blind_choice {A} (seq : list A) : log_blind (choice seq).
Proof.
  intros w1 w2 H. unfold choice, bind, log_call, draw, lift.
  destruct seq as [|y seq]; [simpl; reflexivity|].
  cbn -[py_index Z.of_nat]. rewrite H.
  destruct (randbelow _ _) as [i s']. cbn -[py_index Z.of_nat].
  destruct (py_index _ _); simpl; auto.
Qed.

Lemma log_blind_cd_generate cd goal : log_blind (cd_generate cd goal).
Proof.
  intros w1 w2 H. unfold cd_generate. rewrite H.
  destruct (generate _ _ _). simpl. auto.
Qed.

(** *** The retry loop and the loop body *)

(** Splits the goal along the structure of the computation. *)
Ltac split_computation base :=
  repeat (intros; first
    [ base
    | match goal with
      | |- context [match ?x with pair _ _ => _ end] => destruct x
      | |- context [if ?c then _ else _] => destruct c
      end ]).

Lemma draws_only_find_instance fuel cd : draws_only (find_instance fuel cd).
Proof.
  induction fuel as [|fuel IH]; [intros w a w' H; discriminate|].
  cbn [find_instance].
  apply draws_only_bind; [apply draws_only_randint|]. intros goal.
  apply draws_only_bind; [apply draws_only_cd_generate|].
  intros [numbers [sol|]]; [apply draws_only_ret | apply IH].
Qed.

Lemma log_blind_find_instance fuel cd : log_blind (find_instance fuel cd).
Proof.
  induction fuel as [|fuel IH]; [intros w1 w2 H; exact I|].
  cbn [find_instance].
  apply log_blind_bind; [apply log_blind_randint|]. intros goal.
  apply log_blind_bind; [apply log_blind_cd_generate|].
  intros [numbers [sol|]]; [apply log_blind_ret | apply IH].
Qed.

Lemma find_instance_mono fuel fuel' cd :
  (fuel <= fuel')%nat -> refines (find_instance fuel cd) (find_instance fuel' cd).
Proof.
  revert fuel'. induction fuel as [|fuel IH]; intros fuel' Hle.
  - intros w r H. discriminate.
  - destruct fuel' as [|fuel']; [lia|]. cbn [find_instance].
    apply refines_bind; [apply refines_refl|]. intros goal.
    apply refines_bind; [apply refines_refl|].
    intros [numbers [sol|]]; [apply refines_refl | apply IH; lia].
Qed.

(** The loop leaves with the target it drew last, and with the numbers and
    the solution the engine returned for that target. *)
Lemma find_instance_Ret fuel cd w goal numbers sol w' :
  find_instance fuel cd w = Ret (goal, numbers, sol, w') ->
  exists s, generate cd goal s = (numbers, Some sol, rand_state w').
Proof.
  revert w. induction fuel as [|fuel IH]; intros w H; [discriminate|].
  cbn [find_instance] in H. step_in H. step_in H.
  destruct a0 as [numbers0 [sol0|]].
  - step_in H. injection H as -> -> ->.
    apply cd_generate_Ret in H1 as [H1 _]. eauto.
  - eapply IH, H.
Qed.

Lemma draws_only_sample_body fuel ops b : draws_only (sample_body fuel ops b).
Proof.
  unfold sample_body.
  split_computation ltac:(first
    [ apply draws_only_randint | apply draws_only_choice
    | apply draws_only_find_instance | apply draws_only_ret
    | apply draws_only_lift | apply draws_only_bind ]).
Qed.

Lemma log_blind_sample_body fuel ops b : log_blind (sample_body fuel ops b).
Proof.
  unfold sample_body.
  split_computation ltac:(first
    [ apply log_blind_randint | apply log_blind_choice
    | apply log_blind_find_instance | apply log_blind_ret
    | apply log_blind_lift | apply log_blind_bind ]).
Qed.

Lemma sample_body_mono fuel fuel' ops b :
  (fuel <= fuel')%nat -> refines (sample_body fuel ops b) (sample_body fuel' ops b).
Proof.
  intros Hle. unfold sample_body.
  split_computation ltac:(first
    [ apply refines_refl | apply find_instance_mono; assumption
    | apply refines_bind ]).
Qed.

Lemma draws_only_samples_loop fuel ops n b acc :
  draws_only (samples_loop fuel ops n b acc).
Proof.
  revert b acc. induction n as [|n IH]; intros b acc; cbn [samples_loop].
  - apply draws_only_ret.
  - apply draws_only_bind; [apply draws_only_sample_body|].
    intros [x b']. apply IH.
Qed.

Lemma log_blind_samples_loop fuel ops n b acc :
  log_blind (samples_loop fuel ops n b acc).
Proof.
  revert b acc. induction n as [|n IH]; intros b acc; cbn [samples_loop].
  - apply log_blind_ret.
  - apply log_blind_bind; [apply log_blind_sample_body|].
    intros [x b']. apply IH.
Qed.

Lemma samples_loop_mono fuel fuel' ops n b acc :
  (fuel <= fuel')%nat ->
  refines (samples_loop fuel ops n b acc) (samples_loop fuel' ops n b acc).
Proof.
  intros Hle. revert b acc. induction n as [|n IH]; intros b acc; cbn [samples_loop].
  - apply refines_refl.
  - apply refines_bind; [now apply sample_body_mono|].
    intros [x b']. apply IH.
Qed.

Lemma generate_samples_mono fuel fuel' ops group_idx num_samples seed_offset :
  (fuel <= fuel')%nat ->
  refines (generate_samples fuel ops group_idx num_samples seed_offset)
          (generate_samples fuel' ops group_idx num_samples seed_offset).
Proof.
  intros Hle. unfold generate_samples.
  apply refines_bind; [apply refines_refl|]. intros _.
  now apply samples_loop_mono.
Qed.

(** An invariant of the samples: what holds of every sample the body
    returns holds of the whole list. *)
Lemma samples_loop_Forall (P : Sample Sol -> Prop) fuel ops :
  (forall b w x b' w', sample_body fuel ops b w = Ret (x, b', w') -> P x) ->
  forall n b acc w r w',
    Forall P acc ->
    samples_loop fuel ops n b acc w = Ret (r, w') -> Forall P r.
Proof.
  intros Hbody. induction n as [|n IH]; intros b acc w r w' Hacc H;
    cbn [samples_loop] in H.
  - step_in H. now subst.
  - step_in H. destruct a as [x b'].
    eapply IH; [|exact H].
    apply Forall_app. split; [exact Hacc|].
    constructor; [|constructor]. eapply Hbody, H0.
Qed.

Lemma generate_samples_Forall (P : Sample Sol -> Prop) fuel ops :
  (forall b w x b' w', sample_body fuel ops b w = Ret (x, b', w') -> P x) ->
  forall group_idx num_samples seed_offset w r w',
    generate_samples fuel ops group_idx num_samples seed_offset w = Ret (r, w') ->
    Forall P r.
Proof.
  intros Hbody group_idx num_samples seed_offset w r w' H.
  unfold generate_samples in H. step_in H.
  eapply samples_loop_Forall; [exact Hbody | constructor | exact H].
Qed.

Lemma samples_loop_length fuel ops n b acc w r w' :
  samples_loop fuel ops n b acc w = Ret (r, w') ->
  List.length r = (List.length acc + n)%nat.
Proof.
  revert b acc w. induction n as [|n IH]; intros b acc w H;
    cbn [samples_loop] in H.
  - step_in H. subst. lia.
  - step_in H. destruct a as [x b']. apply IH in H.
    rewrite H, length_app. simpl. lia.
Qed.

(** What one run of the loop body did, read off the sample it returned. *)
Lemma sample_body_Ret fuel ops b w x b' w' :
  sample_body fuel ops b w = Ret (x, b', w') ->
  exists size goal numbers sol h search w1 w2 w3 w4,
    let cd := {| max_target := 1000; start_size := size; operators := ops |} in
    randint 3 4 w = Ret (size, w1)
    /\ find_instance fuel cd w1 = Ret (goal, numbers, sol, w2)
    /\ choice [sum_heuristic; mult_heuristic] w2 = Ret (h, w3)
    /\ choice [Dfs; Bfs] w3 = Ret (search, w4)
    /\ target x = goal /\ nums x = numbers /\ solution x = sol
    /\ optimal_path x = convert_to_path cd goal numbers sol
    /\ heuristic x = heuristic_name h
    /\ rating x = (if contains "Goal Reached" (search_path x)
                   then 1%float else 0%float)
    /\ match search with
       | Dfs => search_path x = dfs goal numbers h goal
                /\ search_type x = "dfs" /\ b' = b /\ w' = w4
       | Bfs => exists width,
                choice [1; 2; 3; 4; 5] w4 = Ret (width, w')
                /\ search_path x = bfs goal numbers width h
                /\ search_type x = "bfs_" ++ str_int width
                /\ b' = Some width
       end.
Proof.
  intros H. unfold sample_body in H.
  step_in H. rename a into size, w0 into w1, H0 into Hsize.
  step_in H. destruct a as [[goal numbers] sol]. rename w0 into w2, H0 into Hfind.
  step_in H. rename a into h, w0 into w3, H0 into Hh.
  step_in H. rename a into search, w0 into w4, H0 into Hsearch.
  exists size, goal, numbers, sol, h, search, w1, w2, w3, w4.
  cbv zeta. repeat (split; [eassumption|]).
  step_in H. destruct a as [path beam]. rename H0 into Hpath.
  step_in H. rename H0 into Hlabel. step_in Hlabel.
  step_in H. injection H as -> ->. cbn [target nums solution optimal_path
    heuristic rating search_path search_type].
  repeat (split; [reflexivity|]).
  destruct search; cbn [search_eqb] in Hpath.
  - step_in Hpath. injection Hpath as -> ->.
    cbn in Hlabel. injection Hlabel as <-. repeat split.
  - step_in Hpath. rename a0 into width. step_in Hpath.
    injection Hpath as -> ->.
    cbn -[str_int] in Hlabel. injection Hlabel as <-.
    exists width. repeat split. assumption.
Qed.

(** Whatever the generator held before, the pass behaves the same. *)
Lemma generate_samples_ambient fuel ops group_idx num_samples seed_offset w1 w2 :
  agree (generate_samples fuel ops group_idx num_samples seed_offset w1)
        (generate_samples fuel ops group_idx num_samples seed_offset w2).
Proof.
  unfold generate_samples, bind, random_seed.
  now apply log_blind_samples_loop.
Qed.

(** *** The dataset *)

(** The rows of the column dictionary are the samples it was built from. *)
Lemma from_dict_to_columns (samples : list (Sample Sol)) :
  from_dict (to_columns samples) = samples.
Proof.
  unfold from_dict, to_columns. cbn [col_target col_nums col_solution
    col_search_path col_rating col_optimal_path col_search_type col_heuristic].
  induction samples as [|x samples IH]; [reflexivity|].
  cbn [map rows_of]. rewrite IH. now destruct x.
Qed.

Lemma process_fn_Ret group_idx split_name (ex : Sample Sol) idx t :
  process_fn group_idx split_name ex idx = Ret t ->
  exists name,
    py_index group_names group_idx = Ret name
    /\ t = {| data_source := "countdown_continual";
              prompt := [ {| role := "user";
                             content := base_prefix (nums ex) (target ex)
                                          ["+"; "-"; "*"; "/"] |} ];
              ability := "math";
              reward_model :=
                {| style := "rule";
                   ground_truth :=
                     {| gt_target := target ex;
                        gt_numbers := nums ex;
                        gt_solution := solution ex;
                        gt_search_path := search_path ex;
                        gt_rating := rating ex;
                        gt_optimal_path := optimal_path ex |} |};
              extra_info :=
                {| split := split_name;
                   index := idx;
                   operator_group := name;
                   ei_search_type := search_type ex;
                   ei_heuristic := heuristic ex |} |}.
Proof.
  unfold process_fn. cbn [make_prefix default_template_type String.eqb
    Ascii.eqb Bool.eqb Outcome.bind dp_target dp_nums].
  intros H. apply outcome_bind_Ret in H as (name & Hname & H).
  injection H as <-. eauto.
Qed.

Lemma process_fn_group group_idx split_name (ex : Sample Sol) idx name :
  py_index group_names group_idx = Ret name ->
  exists t, process_fn group_idx split_name ex idx = Ret t.
Proof.
  intros Hname. unfold process_fn. cbn [make_prefix default_template_type
    String.eqb Ascii.eqb Bool.eqb Outcome.bind dp_target dp_nums].
  rewrite Hname. cbn [Outcome.bind]. eauto.
Qed.

Lemma dataset_map_length f idx (l : list (Sample Sol)) rows :
  dataset_map f idx l = Ret rows -> List.length rows = List.length l.
Proof.
  revert idx rows. induction l as [|ex l IH]; intros idx rows H;
    cbn [dataset_map] in H.
  - now injection H as <-.
  - apply outcome_bind_Ret in H as (t & _ & H).
    apply outcome_bind_Ret in H as (rest & Hrest & H).
    injection H as <-. cbn [List.length]. f_equal. eapply IH, Hrest.
Qed.

(** Every row comes from an example of the list, at some index. *)
Lemma dataset_map_In f idx (l : list (Sample Sol)) rows row :
  dataset_map f idx l = Ret rows -> In row rows ->
  exists k, In (example row) l /\ f (example row) k = Ret (fields row).
Proof.
  revert idx rows. induction l as [|ex l IH]; intros idx rows H Hin;
    cbn [dataset_map] in H.
  - injection H as <-. destruct Hin.
  - apply outcome_bind_Ret in H as (t & Ht & H).
    apply outcome_bind_Ret in H as (rest & Hrest & H).
    injection H as <-. destruct Hin as [<- | Hin].
    + exists idx. cbn [example fields]. split; [now left | exact Ht].
    + destruct (IH _ _ Hrest Hin) as (k & Hl & Hk).
      exists k. split; [now right | exact Hk].
Qed.

(** The index column counts up from the first index. *)
Lemma dataset_map_indices group_idx split_name idx (l : list (Sample Sol)) rows :
  dataset_map (process_fn group_idx split_name) idx l = Ret rows ->
  indices rows = map (fun k => idx + Z.of_nat k) (seq 0 (List.length l)).
Proof.
  revert idx rows. induction l as [|ex l IH]; intros idx rows H;
    cbn [dataset_map] in H.
  - now injection H as <-.
  - apply outcome_bind_Ret in H as (t & Ht & H).
    apply outcome_bind_Ret in H as (rest & Hrest & H).
    injection H as <-.
    apply process_fn_Ret in Ht as (name & _ & ->).
    unfold indices in *. cbn [map List.length seq fields extra_info index].
    f_equal; [lia|].
    rewrite (IH _ _ Hrest), <- seq_shift, map_map.
    apply map_ext. intros k. lia.
Qed.

(** The other split tag on the same examples gives the same rows, retagged. *)
Lemma dataset_map_retag group_idx s1 s2 idx (l : list (Sample Sol)) rows :
  dataset_map (process_fn group_idx s1) idx l = Ret rows ->
  dataset_map (process_fn group_idx s2) idx l = Ret (map (with_split s2) rows)
  /\ Forall (fun r => split (extra_info (fields r)) = s1) rows.
Proof.
  revert idx rows. induction l as [|ex l IH]; intros idx rows H;
    cbn [dataset_map] in H |- *.
  - injection H as <-. split; [reflexivity | constructor].
  - apply outcome_bind_Ret in H as (t & Ht & H).
    apply outcome_bind_Ret in H as (rest & Hrest & H).
    injection H as <-.
    apply process_fn_Ret in Ht as (name & Hname & ->).
    destruct (IH _ _ Hrest) as [IH1 IH2].
    split; [|constructor; [reflexivity | exact IH2]].
    rewrite IH1. unfold process_fn. cbn [make_prefix default_template_type
      String.eqb Ascii.eqb Bool.eqb Outcome.bind dp_target dp_nums].
    rewrite Hname. reflexivity.
Qed.

Lemma create_dataset_unfold group_idx (samples : list (Sample Sol)) split_name :
  create_dataset group_idx samples split_name
  = dataset_map (process_fn group_idx split_name) 0 samples.
Proof. unfold create_dataset. now rewrite from_dict_to_columns. Qed.

(** What a call of [generate_group_data] that returned went through. *)
Lemma generate_group_data_Ret fuel group_idx train_size test_size w train test w' :
  generate_group_data fuel group_idx train_size test_size w = Ret (train, test, w') ->
  exists ops name samples,
    py_index operator_groups group_idx = Ret ops
    /\ py_index group_names group_idx = Ret name
    /\ generate_samples fuel ops group_idx train_size 0 w = Ret (samples, w')
    /\ create_dataset group_idx samples "train" = Ret train
    /\ create_dataset group_idx samples "test" = Ret test.
Proof.
  intros H. unfold generate_group_data in H.
  step_in H. step_in H0. rename a into ops.
  step_in H. step_in H1. rename a into name.
  step_in H. rename a into samples.
  step_in H. step_in H3.
  step_in H. step_in H4.
  step_in H. injection H as <- <-.
  exists ops, name, samples. auto.
Qed.

(** Every row of either split was assembled by [process_fn] from a sample
    of the one generation pass of the call. *)
Lemma group_rows fuel group_idx train_size test_size w train test w' row :
  generate_group_data fuel group_idx train_size test_size w = Ret (train, test, w') ->
  In row (train ++ test)%list ->
  exists ops samples split_name k,
    py_index operator_groups group_idx = Ret ops
    /\ generate_samples fuel ops group_idx train_size 0 w = Ret (samples, w')
    /\ In (example row) samples
    /\ process_fn group_idx split_name (example row) k = Ret (fields row).
Proof.
  intros H Hin.
  apply generate_group_data_Ret in H
    as (ops & name & samples & Hops & _ & Hgen & Htrain & Htest).
  rewrite create_dataset_unfold in Htrain, Htest.
  apply in_app_or in Hin as [Hin | Hin].
  - destruct (dataset_map_In _ _ _ _ _ Htrain Hin) as (k & Hex & Hk).
    exists ops, samples, "train", k. auto.
  - destruct (dataset_map_In _ _ _ _ _ Htest Hin) as (k & Hex & Hk).
    exists ops, samples, "test", k. auto.
Qed.

(** The rating of a sample is decided by the substring test alone. *)
Lemma sample_rating fuel ops b w (x : Sample Sol) b' w' :
  sample_body fuel ops b w = Ret (x, b', w') ->
  rating x = if contains "Goal Reached" (search_path x) then 1%float else 0%float.
Proof.
  intros H. apply sample_body_Ret in H
    as (size & goal & numbers & sol & h & search & w1 & w2 & w3 & w4 & H).
  cbv zeta in H. apply H.
Qed.

(** *** The calls return *)

Lemma bind_returns {A B} (m : M rng A) (k : A -> M rng B) w a w1 :
  m w = Ret (a, w1) -> bind m k w = k a w1.
Proof. intros H. unfold bind. now rewrite H. Qed.

Lemma randint_returns a b w :
  a <= b -> exists x w', randint a b w = Ret (x, w').
Proof.
  intros Hab. unfold randint, bind, log_call, draw, ret. cbn.
  destruct (b <? a) eqn:Hba; [lia|].
  destruct (randbelow _ _) as [i s']. eauto.
Qed.

Lemma choice_returns {A} (seq : list A) w :
  randbelow_in_range -> seq <> [] -> exists x w', choice seq w = Ret (x, w').
Proof.
  intros Hrange Hseq. destruct seq as [|y seq]; [now elim Hseq|].
  unfold choice, bind, log_call, draw, lift.
  cbn -[py_index Z.of_nat List.length].
  set (n := Z.of_nat (List.length (y :: seq))).
  assert (Hn : 0 < n) by (subst n; cbn [List.length]; lia).
  specialize (Hrange n (rand_state w) Hn).
  destruct (randbelow n (rand_state w)) as [i s']. cbn [fst] in Hrange.
  destruct (py_index_in_range (y :: seq) i Hrange) as [x Hx].
  cbn -[py_index Z.of_nat]. rewrite Hx. cbn. eauto.
Qed.

Lemma sample_body_returns fuel ops b w :
  randbelow_in_range -> engine_finds fuel ->
  exists r, sample_body fuel ops b w = Ret r.
Proof.
  intros Hrange Hfinds. unfold sample_body.
  destruct (randint_returns 3 4 w) as (size & w1 & H1); [lia|].
  rewrite (bind_returns _ _ _ _ _ H1).
  destruct (Hfinds {| max_target := 1000; start_size := size; operators := ops |} w1)
    as [[[[goal numbers] sol] w2] H2].
  rewrite (bind_returns _ _ _ _ _ H2).
  destruct (choice_returns [sum_heuristic; mult_heuristic] w2 Hrange)
    as (h & w3 & H3); [discriminate|].
  rewrite (bind_returns _ _ _ _ _ H3).
  destruct (choice_returns [Dfs; Bfs] w3 Hrange) as (search & w4 & H4);
    [discriminate|].
  rewrite (bind_returns _ _ _ _ _ H4).
  destruct search; cbn [search_eqb].
  - unfold bind, ret, lift. cbn. eauto.
  - destruct (choice_returns [1; 2; 3; 4; 5] w4 Hrange) as (width & w5 & H5);
      [discriminate|].
    unfold bind at 1 2. rewrite H5. unfold bind, ret, lift. cbn. eauto.
Qed.

Lemma samples_loop_returns fuel ops n b acc w :
  randbelow_in_range -> engine_finds fuel ->
  exists r, samples_loop fuel ops n b acc w = Ret r.
Proof.
  intros Hrange Hfinds. revert b acc w.
  induction n as [|n IH]; intros b acc w; cbn [samples_loop].
  - unfold ret. eauto.
  - destruct (sample_body_returns fuel ops b w Hrange Hfinds) as [[[x b'] w1] H].
    rewrite (bind_returns _ _ _ _ _ H). apply IH.
Qed.

(** With a generator that answers in range and an engine that finds
    instances within the bound, the call returns for each of the groups. *)
Lemma generate_group_data_returns fuel group_idx train_size test_size w :
  randbelow_in_range -> engine_finds fuel ->
  - 4 <= group_idx < 4 ->
  exists r, generate_group_data fuel group_idx train_size test_size w = Ret r.
Proof.
  intros Hrange Hfinds Hidx. unfold generate_group_data.
  assert (Hops : exists ops, py_index operator_groups group_idx = Ret ops).
  { assert (Hcases : group_idx = -4 \/ group_idx = -3 \/ group_idx = -2
                     \/ group_idx = -1 \/ group_idx = 0 \/ group_idx = 1
                     \/ group_idx = 2 \/ group_idx = 3) by lia.
    repeat (destruct Hcases as [-> | Hcases]; [cbv; eauto|]). subst. cbv. eauto. }
  assert (Hname : exists name, py_index group_names group_idx = Ret name).
  { assert (Hcases : group_idx = -4 \/ group_idx = -3 \/ group_idx = -2
                     \/ group_idx = -1 \/ group_idx = 0 \/ group_idx = 1
                     \/ group_idx = 2 \/ group_idx = 3) by lia.
    repeat (destruct Hcases as [-> | Hcases]; [cbv; eauto|]). subst. cbv. eauto. }
  destruct Hops as [ops Hops], Hname as [name Hname].
  unfold bind at 1, lift at 1. rewrite Hops. cbn [Outcome.map Outcome.bind].
  unfold bind at 1, lift at 1. rewrite Hname. cbn [Outcome.map Outcome.bind].
  destruct (samples_loop_returns fuel ops (Z.to_nat train_size) None []
              {| rand_state := seed (42 + group_idx + 0);
                 rand_calls := (rand_calls w ++ [CallSeed (42 + group_idx + 0)])%list |}
              Hrange Hfinds) as [[samples w'] Hgen].
  unfold bind at 1. unfold generate_samples, bind at 1, random_seed.
  rewrite Hgen.
  assert (Hrows : forall split_name idx (l : list (Sample Sol)),
             exists rows, dataset_map (process_fn group_idx split_name) idx l = Ret rows).
  { intros split_name idx l. revert idx.
    induction l as [|ex l IH]; intros idx; cbn [dataset_map]; [eauto|].
    destruct (process_fn_group group_idx split_name ex idx name Hname) as [t Ht].
    destruct (IH (idx + 1)) as [rest Hrest].
    rewrite Ht, Hrest. cbn. eauto. }
  destruct (Hrows "train" 0 samples) as [train Htrain].
  destruct (Hrows "test" 0 samples) as [test Htest].
  unfold bind, lift, ret. rewrite !create_dataset_unfold, Htrain, Htest.
  cbn. eauto.
Qed.

(** *** The record of calls of one sample *)

Lemma find_instance_calls fuel cd w r w' :
  find_instance fuel cd w = Ret (r, w') ->
  exists k, (1 <= k <= fuel)%nat
            /\ rand_calls w' = (rand_calls w ++ repeat (CallRandint 10 1000) k)%list.
Proof.
  revert w. induction fuel as [|fuel IH]; intros w H; [discriminate|].
  cbn [find_instance] in H. step_in H. step_in H.
  apply randint_Ret in H0 as (_ & _ & _ & Hlog).
  apply cd_generate_Ret in H1 as (_ & Hsame).
  destruct a0 as [numbers [sol|]].
  - step_in H. exists 1%nat. split; [lia|]. now rewrite Hsame, Hlog.
  - apply IH in H as (k & Hk & Hcalls). exists (S k). split; [lia|].
    rewrite Hcalls, Hsame, Hlog, <- app_assoc. reflexivity.
Qed.

Lemma sample_body_calls fuel ops b w (x : Sample Sol) b' w' :
  sample_body fuel ops b w = Ret (x, b', w') ->
  exists k, (1 <= k <= fuel)%nat
            /\ rand_calls w' = (rand_calls w ++ sample_calls k (is_beam x))%list.
Proof.
  intros H. apply sample_body_Ret in H
    as (size & goal & numbers & sol & h & search & w1 & w2 & w3 & w4 & H).
  cbv zeta in H.
  destruct H as (Hsize & Hfind & Hh & Hsearch & _ & _ & _ & _ & _ & _ & Hlast).
  apply randint_Ret in Hsize as (_ & _ & _ & L1).
  apply find_instance_calls in Hfind as (k & Hk & L2).
  apply choice_Ret in Hh as (_ & _ & L3).
  apply choice_Ret in Hsearch as (_ & _ & L4).
  exists k. split; [exact Hk|]. unfold sample_calls, is_beam.
  destruct search.
  - destruct Hlast as (_ & -> & _ & ->). cbn [String.eqb Ascii.eqb Bool.eqb negb].
    rewrite L4, L3, L2, L1. cbn [List.length].
    rewrite <- !app_assoc. reflexivity.
  - destruct Hlast as (width & Hwidth & _ & -> & _).
    apply choice_Ret in Hwidth as (_ & _ & L5).
    cbn [String.eqb Ascii.eqb Bool.eqb append negb].
    rewrite L5, L4, L3, L2, L1. cbn [List.length].
    rewrite <- !app_assoc. reflexivity.
Qed.

Lemma samples_loop_calls fuel ops n b acc w r w' :
  samples_loop fuel ops n b acc w = Ret (r, w') ->
  exists new attempts,
    r = (acc ++ new)%list
    /\ List.length new = n /\ List.length attempts = n
    /\ Forall (fun k => (1 <= k <= fuel)%nat) attempts
    /\ rand_calls w'
       = (rand_calls w
          ++ flat_map (fun p => sample_calls (fst p) (is_beam (snd p)))
               (combine attempts new))%list.
Proof.
  revert b acc w. induction n as [|n IH]; intros b acc w H;
    cbn [samples_loop] in H.
  - step_in H. subst. exists [], []. rewrite !app_nil_r.
    repeat split; constructor.
  - step_in H. destruct a as [x b1].
    apply sample_body_calls in H0 as (k & Hk & L1).
    apply IH in H as (new & attempts & -> & Hn & Ha & Hall & L2).
    exists (x :: new), (k :: attempts).
    split; [now rewrite <- app_assoc|].
    cbn [List.length combine flat_map fst snd].
    repeat split; [now rewrite Hn | now rewrite Ha | now constructor |].
    rewrite L2, L1, <- app_assoc. reflexivity.
Qed.

(** The pass records its seed first and only draws afterwards. *)
Lemma generate_samples_log fuel ops group_idx num_samples seed_offset w samples w' :
  generate_samples fuel ops group_idx num_samples seed_offset w = Ret (samples, w') ->
  exists draws,
    rand_calls w'
    = (rand_calls w ++ CallSeed (42 + group_idx + seed_offset) :: draws)%list
    /\ no_seed draws = true.
Proof.
  intros H. unfold generate_samples in H. step_in H.
  assert (Hw : rand_calls w0
               = (rand_calls w ++ [CallSeed (42 + group_idx + seed_offset)])%list)
    by (unfold random_seed in H0; injection H0 as _ <-; reflexivity).
  destruct (draws_only_samples_loop _ _ _ _ _ _ _ _ H) as (draws & Hcalls & Hno).
  exists draws. split; [|exact Hno].
  rewrite Hcalls, Hw, <- app_assoc. reflexivity.
Qed.

Lemma no_seed_filter (cs : list rand_call) :
  no_seed cs = true -> filter is_seed cs = [].
Proof.
  induction cs as [|c cs IH]; [reflexivity|]. cbn [no_seed forallb filter].
  intros H. apply andb_prop in H as [Hc Hcs].
  destruct (is_seed c); [discriminate|]. now apply IH.
Qed.

(** *** What a call can raise *)

Lemma raises_only_ret {A} P (a : A) : raises_only (rng:=rng) P (ret a).
Proof. intros w e H. discriminate. Qed.

Lemma raises_only_bind {A B} P (m : M rng A) (k : A -> M rng B) :
  raises_only P m ->
  (forall a w w', m w = Ret (a, w') -> raises_only P (k a)) ->
  raises_only P (bind m k).
Proof.
  intros Hm Hk w e H. unfold bind in H.
  destruct (m w) as [[a w1]|e'|] eqn:Hmw; [|injection H as ->|discriminate].
  - eapply Hk; eauto.
  - eapply Hm; eauto.
Qed.

Lemma raises_only_randint P a b : a <= b -> raises_only P (randint a b).
Proof.
  intros Hab w e H. destruct (randint_returns a b w Hab) as (x & w' & Hx).
  rewrite Hx in H. discriminate.
Qed.

Lemma raises_only_cd_generate P cd goal : raises_only P (cd_generate cd goal).
Proof.
  intros w e H. unfold cd_generate in H.
  destruct (generate _ _ _). discriminate.
Qed.

(** [random.choice] can only fail on the index. *)
Lemma choice_raises_index {A} (seq : list A) :
  raises_only (fun e => e = IndexError) (choice seq).
Proof.
  intros w e H. unfold choice, bind, log_call, draw, lift in H.
  destruct seq as [|y seq]; [cbn in H; congruence|].
  cbn -[py_index Z.of_nat List.length] in H.
  destruct (randbelow _ _) as [i s'].
  cbn -[py_index Z.of_nat List.length] in H.
  unfold py_index in H. destruct (_ || _); [cbn in H; congruence|].
  destruct (nth_error _ _); cbn in H; congruence.
Qed.

Lemma choice_never_raises {A} (seq : list A) :
  randbelow_in_range -> seq <> [] -> raises_only (fun _ => False) (choice seq).
Proof.
  intros Hrange Hseq w e H.
  destruct (choice_returns seq w Hrange Hseq) as (x & w' & Hx).
  rewrite Hx in H. discriminate.
Qed.

Lemma raises_only_find_instance P fuel cd : raises_only P (find_instance fuel cd).
Proof.
  induction fuel as [|fuel IH]; [intros w e H; discriminate|].
  cbn [find_instance].
  apply raises_only_bind; [apply raises_only_randint; lia|]. intros goal _ _ _.
  apply raises_only_bind; [apply raises_only_cd_generate|].
  intros [numbers [sol|]] _ _ _; [apply raises_only_ret | apply IH].
Qed.

(** The label is read with [beam_size] bound whenever the search is the
    beam search, so the body raises only what [random.choice] raises. *)
Lemma raises_only_sample_body P fuel ops b :
  (forall A (seq : list A), seq <> [] -> raises_only P (choice seq)) ->
  raises_only P (sample_body fuel ops b).
Proof.
  intros Hchoice. unfold sample_body.
  apply raises_only_bind; [apply raises_only_randint; lia|]. intros size _ _ _.
  apply raises_only_bind; [apply raises_only_find_instance|].
  intros [[goal numbers] sol] _ _ _.
  apply raises_only_bind; [apply Hchoice; discriminate|]. intros h _ _ _.
  apply raises_only_bind; [apply Hchoice; discriminate|]. intros search _ _ _.
  apply raises_only_bind.
  - destruct search; cbn [search_eqb]; [apply raises_only_ret|].
    apply raises_only_bind; [apply Hchoice; discriminate|].
    intros width _ _ _. apply raises_only_ret.
  - intros [path beam] wa wb Hres.
    assert (Hlabel : exists label, search_label search beam = Ret label).
    { destruct search; cbn [search_eqb] in Hres.
      - cbn. eauto.
      - step_in Hres. step_in Hres. injection Hres as _ ->. cbn. eauto. }
    destruct Hlabel as [label Hlabel]. rewrite Hlabel.
    intros w e H. discriminate.
Qed.

Lemma raises_only_samples_loop P fuel ops n b acc :
  (forall A (seq : list A), seq <> [] -> raises_only P (choice seq)) ->
  raises_only P (samples_loop fuel ops n b acc).
Proof.
  intros Hchoice. revert b acc.
  induction n as [|n IH]; intros b acc; cbn [samples_loop].
  - apply raises_only_ret.
  - apply raises_only_bind; [now apply raises_only_sample_body|].
    intros [x b'] _ _ _. apply IH.
Qed.

Lemma dataset_map_returns group_idx split_name name idx (l : list (Sample Sol)) :
  py_index group_names group_idx = Ret name ->
  exists rows, dataset_map (process_fn group_idx split_name) idx l = Ret rows.
Proof.
  intros Hname. revert idx.
  induction l as [|ex l IH]; intros idx; cbn [dataset_map]; [eauto|].
  destruct (process_fn_group group_idx split_name ex idx name Hname) as [t Ht].
  destruct (IH (idx + 1)) as [rest Hrest].
  rewrite Ht, Hrest. cbn. eauto.
Qed.

(** Up to the datasets, a call of [generate_group_data] is the generation
    pass of the group. *)
Lemma generate_group_data_pass fuel group_idx train_size test_size ops name w :
  py_index operator_groups group_idx = Ret ops ->
  py_index group_names group_idx = Ret name ->
  generate_group_data fuel group_idx train_size test_size w
  = match generate_samples fuel ops group_idx train_size 0 w with
    | Ret (samples, w') =>
        match create_dataset group_idx samples "train",
              create_dataset group_idx samples "test" with
        | Ret train, Ret test => Ret (train, test, w')
        | _, _ => OutOfFuel
        end
    | Raise e => Raise e
    | OutOfFuel => OutOfFuel
    end.
Proof.
  intros Hops Hname. unfold generate_group_data.
  unfold bind at 1, lift at 1. rewrite Hops. cbn [Outcome.map Outcome.bind].
  unfold bind at 1, lift at 1. rewrite Hname. cbn [Outcome.map Outcome.bind].
  unfold bind at 1.
  destruct (generate_samples _ _ _ _ _ _) as [[samples w']| |]; [|reflexivity..].
  rewrite !create_dataset_unfold.
  destruct (dataset_map_returns group_idx "train" name 0 samples Hname) as [train ->].
  destruct (dataset_map_returns group_idx "test" name 0 samples Hname) as [test ->].
  reflexivity.
Qed.

Lemma group_index_cases group_idx :
  (exists ops name,
      - 4 <= group_idx < 4
      /\ py_index operator_groups group_idx = Ret ops
      /\ py_index group_names group_idx = Ret name)
  \/ (~ - 4 <= group_idx < 4
      /\ py_index operator_groups group_idx = Raise IndexError
      /\ py_index group_names group_idx = Raise IndexError).
Proof.
  destruct (Z_lt_dec group_idx (-4)) as [Hlow|Hlow];
    [|destruct (Z_lt_dec group_idx 4) as [Hhigh|Hhigh]].
  - right. split; [lia|]. unfold py_index.
    cbn [List.length operator_groups group_names]. change (Z.of_nat 4) with 4.
    destruct (Z.ltb_spec group_idx 0); [|lia].
    destruct (Z.ltb_spec (group_idx + 4) 0); [|lia]. split; reflexivity.
  - left.
    assert (Hcases : group_idx = -4 \/ group_idx = -3 \/ group_idx = -2
                     \/ group_idx = -1 \/ group_idx = 0 \/ group_idx = 1
                     \/ group_idx = 2 \/ group_idx = 3) by lia.
    repeat (destruct Hcases as [-> | Hcases];
            [eexists _, _; repeat split; (lia || reflexivity)|]).
    subst. eexists _, _; repeat split; (lia || reflexivity).
  - right. split; [lia|]. unfold py_index.
    cbn [List.length operator_groups group_names]. change (Z.of_nat 4) with 4.
    destruct (Z.ltb_spec group_idx 0); [lia|].
    destruct (Z.ltb_spec group_idx 0); [lia|].
    destruct (Z.leb_spec 4 group_idx); [|lia]. split; reflexivity.
Qed.

Lemma generate_group_data_bad_index fuel group_idx train_size test_size w :
  ~ - 4 <= group_idx < 4 ->
  generate_group_data fuel group_idx train_size test_size w = Raise IndexError.
Proof.
  intros Hbad.
  destruct (group_index_cases group_idx)
    as [(ops & name & Hin & _) | (_ & Hops & _)]; [contradiction|].
  unfold generate_group_data, bind at 1, lift at 1. now rewrite Hops.
Qed.

Lemma raises_only_generate_samples P fuel ops group_idx num_samples seed_offset :
  (forall A (seq : list A), seq <> [] -> raises_only P (choice seq)) ->
  raises_only P (generate_samples fuel ops group_idx num_samples seed_offset).
Proof.
  intros Hchoice. unfold generate_samples.
  apply raises_only_bind; [intros w e H; discriminate|].
  intros _ _ _ _. now apply raises_only_samples_loop.
Qed.

(** *** Independence from the state before the call *)

Lemma generate_group_data_agree fuel group_idx train_size test_size :
  ambient (generate_group_data fuel group_idx train_size test_size).
Proof.
  intros w1 w2.
  destruct (group_index_cases group_idx)
    as [(ops & name & _ & Hops & Hname) | (Hbad & _)].
  - rewrite !(generate_group_data_pass _ _ _ _ _ _ _ Hops Hname).
    pose proof (generate_samples_ambient fuel ops group_idx train_size 0 w1 w2)
      as Hag.
    unfold agree in Hag.
    destruct (generate_samples _ _ _ _ _ w1) as [[s1 v1]|e1|],
             (generate_samples _ _ _ _ _ w2) as [[s2 v2]|e2|];
      try contradiction; try exact Hag.
    destruct Hag as [<- Hv].
    destruct (create_dataset group_idx s1 "train"); try exact I.
    destruct (create_dataset group_idx s1 "test"); try exact I.
    cbn. auto.
  - rewrite !(generate_group_data_bad_index _ _ _ _ _ Hbad). reflexivity.
Qed.

Lemma run_groups_Ret fuel train_size test_size group_idx rest w ds w' :
  run_groups fuel train_size test_size (group_idx :: rest) w = Ret (ds, w') ->
  exists d others w1,
    ds = d :: others
    /\ generate_group_data fuel group_idx train_size test_size w = Ret (d, w1)
    /\ run_groups fuel train_size test_size rest w1 = Ret (others, w').
Proof.
  intros H. cbn [run_groups] in H.
  apply bind_Ret in H as (d & w1 & Hd & H).
  apply bind_Ret in H as (others & w2 & Hothers & H).
  apply ret_Ret in H as [-> ->]. eauto 6.
Qed.

(** The calls a returned [generate_group_data] recorded: its seed, then
    draws. *)
Lemma generate_group_data_log fuel group_idx train_size test_size w r w' :
  generate_group_data fuel group_idx train_size test_size w = Ret (r, w') ->
  exists draws,
    rand_calls w' = (rand_calls w ++ CallSeed (42 + group_idx + 0) :: draws)%list
    /\ no_seed draws = true.
Proof.
  destruct r as [train test]. intros H.
  apply generate_group_data_Ret in H
    as (ops & name & samples & _ & _ & Hgen & _ & _).
  eapply generate_samples_log, Hgen.
Qed.

(** *** Ranges and validity *)

Lemma randint_range a b w x w' :
  randbelow_in_range -> randint a b w = Ret (x, w') -> a <= x <= b.
Proof.
  intros Hrange H. apply randint_Ret in H as (Hab & -> & _ & _).
  specialize (Hrange (b - a + 1) (rand_state w)). lia.
Qed.

Lemma find_instance_target fuel cd w goal numbers sol w' :
  find_instance fuel cd w = Ret (goal, numbers, sol, w') ->
  exists w0 w1, randint 10 1000 w0 = Ret (goal, w1).
Proof.
  revert w. induction fuel as [|fuel IH]; intros w H; [discriminate|].
  cbn [find_instance] in H. step_in H. step_in H.
  destruct a0 as [numbers0 [sol0|]].
  - step_in H. injection H as -> -> ->. eauto.
  - eapply IH, H.
Qed.

Lemma solvable_incl (group group' : list string) (numbers : list Z) (goal : Z) :
  incl group group' -> solvable group numbers goal -> solvable group' numbers goal.
Proof.
  intros Hincl (e & Hperm & Hops & Heval).
  exists e. repeat split; [exact Hperm | | exact Heval].
  intros o Ho. apply Hincl, Hops, Ho.
Qed.

Lemma operator_groups_vocabulary group_idx ops :
  py_index operator_groups group_idx = Ret ops ->
  incl ops ["+"; "-"; "*"; "/"].
Proof.
  intros H. apply py_index_In in H. cbn in H.
  intros o Ho. cbn.
  destruct H as [<- | [<- | [<- | [<- | []]]]]; cbn in Ho; intuition.
Qed.

Lemma sample_solvable fuel ops b w (x : Sample Sol) b' w' :
  engine_sound ->
  sample_body fuel ops b w = Ret (x, b', w') ->
  solvable ops (nums x) (target x).
Proof.
  intros Hsound H. apply sample_body_Ret in H
    as (size & goal & numbers & sol & h & search & w1 & w2 & w3 & w4 & H).
  cbv zeta in H. destruct H as (_ & Hfind & _ & _ & <- & <- & _).
  apply find_instance_Ret in Hfind as [s Hgen].
  apply (Hsound _ _ _ _ _ _ Hgen).
Qed.

(** The rows keep the order of the samples. *)
Lemma dataset_map_examples f idx (l : list (Sample Sol)) rows :
  dataset_map f idx l = Ret rows -> map example rows = l.
Proof.
  revert idx rows. induction l as [|ex l IH]; intros idx rows H;
    cbn [dataset_map] in H.
  - now injection H as <-.
  - apply outcome_bind_Ret in H as (t & _ & H).
    apply outcome_bind_Ret in H as (rest & Hrest & H).
    injection H as <-. cbn [map example]. f_equal. eapply IH, Hrest.
Qed.

(** *** The labels and the draws *)

Lemma sample_body_labelled fuel ops b w (x : Sample Sol) b' w' :
  sample_body fuel ops b w = Ret (x, b', w') -> labelled_step fuel ops w x w'.
Proof.
  intros H. apply sample_body_Ret in H
    as (size & goal & numbers & sol & h & search & w1 & w2 & w3 & w4 & H).
  cbv zeta in H.
  destruct H as (Hsize & Hfind & Hh & Hsearch & <- & <- & <- & _ & _ & _ & Hlast).
  exists size, h, search, w1, w2, w3, w4.
  repeat (split; [assumption|]).
  destruct search.
  - destruct Hlast as (Hpath & Hty & _ & ->). auto.
  - destruct Hlast as (width & Hwidth & Hpath & Hty & _).
    exists width.
    split; [exact Hwidth|].
    split; [apply choice_Ret in Hwidth as (Hidx & _); exact Hidx|].
    split; [eapply choice_In, Hwidth|].
    split; [exact Hty | exact Hpath].
Qed.

Lemma samples_loop_labelled fuel ops n b acc w r w' :
  samples_loop fuel ops n b acc w = Ret (r, w') ->
  exists new, r = (acc ++ new)%list /\ labelled_run fuel ops w new w'.
Proof.
  revert b acc w. induction n as [|n IH]; intros b acc w H;
    cbn [samples_loop] in H.
  - step_in H. subst. exists []. now rewrite app_nil_r.
  - step_in H. destruct a as [x b1].
    apply sample_body_labelled in H0.
    apply IH in H as (new & -> & Hrun).
    exists (x :: new). split; [now rewrite <- app_assoc|].
    cbn [labelled_run]. eauto.
Qed.

(** The draws are functions of the state: from one state there is one label,
    one search path and one state after. *)
Lemma labelled_step_functional fuel ops w (x y : Sample Sol) wx wy :
  labelled_step fuel ops w x wx -> labelled_step fuel ops w y wy ->
  search_type x = search_type y /\ search_path x = search_path y /\ wx = wy.
Proof.
  intros (size & h & search & w1 & w2 & w3 & w4 & Hs & Hf & Hh & Hc & Hx)
         (size' & h' & search' & w1' & w2' & w3' & w4' & Hs' & Hf' & Hh' & Hc' & Hy).
  rewrite Hs in Hs'. injection Hs' as <- <-.
  rewrite Hf in Hf'. injection Hf' as Ht Hn Hsol <-.
  rewrite Hh in Hh'. injection Hh' as <- <-.
  rewrite Hc in Hc'. injection Hc' as <- <-.
  destruct search.
  - destruct Hx as (-> & -> & ->), Hy as (-> & -> & ->).
    rewrite Ht, Hn. auto.
  - destruct Hx as (width & Hw & _ & _ & -> & ->),
             Hy as (width' & Hw' & _ & _ & -> & ->).
    rewrite Hw in Hw'. injection Hw' as <- <-.
    rewrite Ht, Hn. auto.
Qed.

End Properties.

(** * The claims *)

Section Claims.

Context {rng : Type} {R : Random rng} {E : PuzzleEngine rng}.

(** ** The generation pass *)

(** C1: two independent runs of the generation pass with the same operator
    group, seed and size produce the same sequence of samples, whatever the
    generator held when each run started: with the same bound on the retry
    loops the two runs end alike, and two runs that both return (under any
    two bounds) return the same list and leave the same generator state. *)
Theorem generation_deterministic (fuel1 fuel2 : nat) (ops : list string)
    (group_idx num_samples seed_offset : Z) (w1 w2 : world rng) :
  agree (generate_samples fuel1 ops group_idx num_samples seed_offset w1)
        (generate_samples fuel1 ops group_idx num_samples seed_offset w2)
  /\ forall r1 w1' r2 w2',
       generate_samples fuel1 ops group_idx num_samples seed_offset w1 = Ret (r1, w1') ->
       generate_samples fuel2 ops group_idx num_samples seed_offset w2 = Ret (r2, w2') ->
       r1 = r2 /\ rand_state w1' = rand_state w2'.
Proof.
  split; [apply generate_samples_ambient|].
  intros r1 w1' r2 w2' H1 H2.
  apply (generate_samples_mono fuel1 (Nat.max fuel1 fuel2)) in H1; [|lia].
  apply (generate_samples_mono fuel2 (Nat.max fuel1 fuel2)) in H2; [|lia].
  pose proof (generate_samples_ambient (Nat.max fuel1 fuel2) ops group_idx
                num_samples seed_offset w1 w2) as Hag.
  rewrite H1, H2 in Hag. exact Hag.
Qed.

(** C5: a generation pass seeds the generator once, first of all, with
    [42 + group_idx + seed_offset]; all the calls that follow are draws, the
    loop starts from the seeded state, and no sample seeds again. *)
Theorem seeded_once_per_pass (fuel : nat) (ops : list string)
    (group_idx num_samples seed_offset : Z) (w : world rng)
    (samples : list (Sample (Solution E))) (w' : world rng) :
  generate_samples fuel ops group_idx num_samples seed_offset w = Ret (samples, w') ->
  samples_loop fuel ops (Z.to_nat num_samples) None []
    {| rand_state := seed (42 + group_idx + seed_offset);
       rand_calls := (rand_calls w ++ [CallSeed (42 + group_idx + seed_offset)])%list |}
  = Ret (samples, w')
  /\ exists draws,
       rand_calls w'
       = (rand_calls w ++ CallSeed (42 + group_idx + seed_offset) :: draws)%list
       /\ no_seed draws = true.
Proof.
  intros H. unfold generate_samples in H. step_in H.
  assert (Hw : w0 = {| rand_state := seed (42 + group_idx + seed_offset);
                       rand_calls := (rand_calls w
                                      ++ [CallSeed (42 + group_idx + seed_offset)])%list |})
    by (unfold random_seed in H0; congruence).
  subst w0. split; [exact H|].
  destruct (draws_only_samples_loop _ _ _ _ _ _ _ _ H) as (draws & Hcalls & Hno).
  exists draws. split; [|exact Hno].
  rewrite Hcalls. cbn [rand_calls]. now rewrite <- app_assoc.
Qed.

(** C2: every sample of a generation pass is an instance the engine solved:
    its target, numbers and solution are those of one call of [generate] on
    a [CountDown] object of the group that returned a solution, and so, the
    engine being sound, some expression over its numbers with operators of
    the group evaluates to its target. *)
Theorem generated_instances_solvable (fuel : nat) (ops : list string)
    (group_idx num_samples seed_offset : Z) (w : world rng)
    (samples : list (Sample (Solution E))) (w' : world rng) :
  engine_sound ->
  generate_samples fuel ops group_idx num_samples seed_offset w = Ret (samples, w') ->
  Forall (fun x =>
            (exists cd s s',
                operators cd = ops
                /\ generate cd (target x) s = (nums x, Some (solution x), s'))
            /\ solvable ops (nums x) (target x)) samples.
Proof.
  intros Hsound H.
  eapply generate_samples_Forall; [|exact H].
  clear H w w'. intros b w x b' w' H.
  apply sample_body_Ret in H
    as (size & goal & numbers & sol & h & search & w1 & w2 & w3 & w4 & H).
  cbv zeta in H.
  destruct H as (_ & Hfind & _ & _ & <- & <- & <- & _).
  apply find_instance_Ret in Hfind as [s Hgen].
  split.
  - eexists _, s, _. split; [|exact Hgen]. reflexivity.
  - apply (Hsound _ _ _ _ _ _ Hgen).
Qed.

(** C8: the [search_type] of every sample of a pass is the label of the
    draws of the pass.  Starting from the seeded state, the samples are drawn
    one after the other, each from the state the one before left; the label
    of a sample is the name of the search its [random.choice] selected, alone
    for depth-first search and followed by an underscore and the beam width
    for beam search, and its search path is the trace of that search with
    that width.  The width is the element of [1, 2, 3, 4, 5] at the index
    [_randbelow(5)] answered in the state the selection of the search left.
    Each of the five widths is the choice for exactly one of the five
    answers, so the width is uniform when [_randbelow] is.  The label is a
    function of the draws: from one state, one label. *)
Theorem search_type_label (fuel : nat) (ops : list string)
    (group_idx num_samples seed_offset : Z) (w : world rng)
    (samples : list (Sample (Solution E))) (w' : world rng) :
  generate_samples fuel ops group_idx num_samples seed_offset w = Ret (samples, w') ->
  labelled_run fuel ops
    {| rand_state := seed (42 + group_idx + seed_offset);
       rand_calls := (rand_calls w ++ [CallSeed (42 + group_idx + seed_offset)])%list |}
    samples w'
  /\ (forall v x y vx vy,
        labelled_step fuel ops v x vx -> labelled_step fuel ops v y vy ->
        search_type x = search_type y /\ search_path x = search_path y /\ vx = vy)
  /\ (forall i, 0 <= i < 5 -> width_at i = Ret (i + 1))
  /\ Forall (fun width => answers_giving width 5 = 1%nat) beam_widths.
Proof.
  intros H. split; [|split; [|split]].
  - unfold generate_samples in H. step_in H.
    assert (Hw : w0 = {| rand_state := seed (42 + group_idx + seed_offset);
                         rand_calls := (rand_calls w
                                        ++ [CallSeed (42 + group_idx + seed_offset)])%list |})
      by (unfold random_seed in H0; congruence).
    subst w0.
    apply samples_loop_labelled in H as (new & -> & Hrun). exact Hrun.
  - intros v x y vx vy. apply labelled_step_functional.
  - intros i Hi.
    assert (Hcases : i = 0 \/ i = 1 \/ i = 2 \/ i = 3 \/ i = 4) by lia.
    destruct Hcases as [-> | [-> | [-> | [-> | ->]]]]; reflexivity.
  - repeat constructor.
Qed.

(** ** The records *)

(** C3: in every record of either split, the rating is 1.0 exactly when
    ["Goal Reached"] occurs in the search path of the record, it is 0.0
    when it does not occur, and it is never anything else. *)
Theorem rating_correct (fuel : nat) (group_idx train_size test_size : Z)
    (w : world rng) (train test : list (Row (Solution E))) (w' : world rng) :
  generate_group_data fuel group_idx train_size test_size w = Ret (train, test, w') ->
  Forall (fun row =>
            let g := ground_truth (reward_model (fields row)) in
            let occurs :=
              exists pre post, gt_search_path g = pre ++ "Goal Reached" ++ post in
            (gt_rating g = 1%float <-> occurs)
            /\ (~ occurs -> gt_rating g = 0%float)
            /\ (gt_rating g = 1%float \/ gt_rating g = 0%float))
         (train ++ test)%list.
Proof.
  intros H. apply Forall_forall. intros row Hin.
  destruct (group_rows _ _ _ _ _ _ _ _ _ H Hin)
    as (ops & samples & split_name & k & _ & Hgen & Hex & Hk).
  apply process_fn_Ret in Hk as (name & _ & Hk). rewrite Hk.
  cbn [reward_model ground_truth gt_rating gt_search_path].
  assert (Hrate : rating (example row)
                  = if contains "Goal Reached" (search_path (example row))
                    then 1%float else 0%float).
  { pose proof (generate_samples_Forall _ fuel ops
                  (fun b w x b' w' => sample_rating fuel ops b w x b' w')
                  _ _ _ _ _ _ Hgen) as Hall.
    rewrite Forall_forall in Hall. now apply Hall. }
  rewrite Hrate, <- contains_spec.
  destruct (contains "Goal Reached" (search_path (example row))).
  - split; [split; reflexivity|].
    split; [intros Hno; now elim Hno | now left].
  - split; [split; [intros Hone; symmetry in Hone;
                     now apply float_one_zero in Hone | discriminate]|].
    split; [reflexivity | now right].
Qed.

(** C7: whatever the operator group of the call, the prompt of every record
    is the base template on the numbers and the target of the record, and
    the operators it lists are all four, [+, -, *, /]. *)
Theorem prompt_lists_all_operators (fuel : nat) (group_idx train_size test_size : Z)
    (w : world rng) (train test : list (Row (Solution E))) (w' : world rng) :
  generate_group_data fuel group_idx train_size test_size w = Ret (train, test, w') ->
  Forall (fun row =>
            let g := ground_truth (reward_model (fields row)) in
            make_prefix {| dp_target := gt_target g; dp_nums := gt_numbers g |}
                        ["+"; "-"; "*"; "/"] "base"
            = Ret ("A conversation between User and Assistant. The user asks a question, and the Assistant solves it. The assistant first thinks about the reasoning process in the mind and then provides the user with the answer."
                   ++ nl ++ "User: "
                   ++ ("Using the numbers " ++ str_list (gt_numbers g)
                       ++ ", create an equation that equals " ++ str_int (gt_target g)
                       ++ ". You can use basic arithmetic operations (+, -, *, /) and each number can only be used once. Show your work in <think> </think> tags. And return the final answer in <answer> </answer> tags, for example <answer> (1 + 2) / 3 </answer>.")
                   ++ nl ++ "Assistant: Let me solve this step by step."
                   ++ nl ++ "<think>")
            /\ Outcome.map (fun q => [ {| role := "user"; content := q |} ])
                 (make_prefix {| dp_target := gt_target g; dp_nums := gt_numbers g |}
                              ["+"; "-"; "*"; "/"] "base")
               = Ret (prompt (fields row)))
         (train ++ test)%list.
Proof.
  intros H. apply Forall_forall. intros row Hin.
  destruct (group_rows _ _ _ _ _ _ _ _ _ H Hin)
    as (ops & samples & split_name & k & _ & _ & _ & Hk).
  apply process_fn_Ret in Hk as (name & _ & Hk). rewrite Hk.
  cbn [reward_model ground_truth gt_target gt_numbers prompt].
  split; reflexivity.
Qed.

(** C6: in a split of [count] records the indices are 0, 1, ...,
    [count - 1], in the order of the records. *)
Theorem index_contiguous (group_idx : Z) (samples : list (Sample (Solution E)))
    (split_name : string) (rows : list (Row (Solution E))) :
  create_dataset group_idx samples split_name = Ret rows ->
  indices rows = range (List.length rows)
  /\ List.length rows = List.length samples.
Proof.
  intros H. rewrite create_dataset_unfold in H.
  pose proof (dataset_map_length _ _ _ _ H) as Hlen.
  split; [|exact Hlen].
  rewrite (dataset_map_indices _ _ _ _ _ H), Hlen. reflexivity.
Qed.

(** ** The two splits *)

(** C4: the test split is built from the very samples of the train split:
    its rows are the rows of the train split, in the same order, with the
    tag [split] set to ["test"] where the train rows have ["train"], and
    nothing else differs. *)
Theorem test_split_is_train_split (fuel : nat) (group_idx train_size test_size : Z)
    (w : world rng) (train test : list (Row (Solution E))) (w' : world rng) :
  generate_group_data fuel group_idx train_size test_size w = Ret (train, test, w') ->
  test = map (with_split "test") train
  /\ Forall (fun r => split (extra_info (fields r)) = "train") train
  /\ map example test = map example train
  /\ map (fun r => reward_model (fields r)) test
     = map (fun r => reward_model (fields r)) train.
Proof.
  intros H.
  apply generate_group_data_Ret in H
    as (ops & name & samples & _ & _ & _ & Htrain & Htest).
  rewrite create_dataset_unfold in Htrain, Htest.
  destruct (dataset_map_retag _ _ "test" _ _ _ Htrain) as [Hre Htag].
  rewrite Hre in Htest. injection Htest as <-.
  repeat split; [exact Htag | |]; rewrite map_map; reflexivity.
Qed.

(** C9: [test_size] has no influence on the call, and the test split has as
    many records as were generated for the train split, that is
    [train_size] of them. *)
Theorem test_size_ignored (fuel : nat) (group_idx train_size test_size : Z)
    (w : world rng) :
  (forall test_size',
      generate_group_data fuel group_idx train_size test_size' w
      = generate_group_data fuel group_idx train_size test_size w)
  /\ forall train test w',
       generate_group_data fuel group_idx train_size test_size w
       = Ret (train, test, w') ->
       List.length test = Z.to_nat train_size
       /\ List.length train = Z.to_nat train_size
       /\ (0 <= train_size -> Z.of_nat (List.length test) = train_size).
Proof.
  split; [reflexivity|].
  intros train test w' H.
  apply generate_group_data_Ret in H
    as (ops & name & samples & _ & _ & Hgen & Htrain & Htest).
  rewrite create_dataset_unfold in Htrain, Htest.
  apply dataset_map_length in Htrain, Htest.
  unfold generate_samples in Hgen. step_in Hgen.
  apply samples_loop_length in Hgen. cbn [List.length] in Hgen.
  rewrite Htrain, Htest, Hgen. repeat split. lia.
Qed.

End Claims.

(** ** The prompt template *)

(** C10: for every [template_type] other than ['base'] and
    ['qwen-instruct'], [make_prefix] returns no prompt: the local [prefix]
    was never assigned, and the call ends in [UnboundLocalError]. *)
Theorem make_prefix_unknown_template (dp : DataPoint) (ops : list string)
    (template_type : string) :
  template_type <> "base" ->
  template_type <> "qwen-instruct" ->
  make_prefix dp ops template_type = Raise UnboundLocalError
  /\ forall p, make_prefix dp ops template_type <> Ret p.
Proof.
  intros Hbase Hqwen. unfold make_prefix.
  apply String.eqb_neq in Hbase, Hqwen. rewrite Hbase, Hqwen.
  split; [reflexivity | discriminate].
Qed.

Lemma make_prefix_unknown_template_witness :
  "llama" <> "base"
  /\ "llama" <> "qwen-instruct"
  /\ make_prefix {| dp_target := 24; dp_nums := [4; 6; 1] |}
                 ["+"; "-"; "*"; "/"] "llama" = Raise UnboundLocalError.
Proof.
  assert (Hbase : "llama" <> "base") by (apply String.eqb_neq; reflexivity).
  assert (Hqwen : "llama" <> "qwen-instruct") by (apply String.eqb_neq; reflexivity).
  split; [exact Hbase | split; [exact Hqwen |]].
  exact (proj1 (make_prefix_unknown_template
                  {| dp_target := 24; dp_nums := [4; 6; 1] |}
                  ["+"; "-"; "*"; "/"] "llama" Hbase Hqwen)).
Defined.

(** * Further properties of the generator *)

Section Further.

Context {rng : Type} {R : Random rng} {E : PuzzleEngine rng}.

(** ** The prompt template *)

(** X1: [make_prefix] returns a prompt exactly for the templates ['base']
    and ['qwen-instruct'], and in both the prompt contains the same task
    sentence, with [str(numbers)], [str(target)] and the operators joined by
    a comma and a space. *)
Theorem make_prefix_templates (dp : DataPoint) (ops : list string)
    (template_type : string) :
  ((exists p, make_prefix dp ops template_type = Ret p)
   <-> template_type = "base" \/ template_type = "qwen-instruct")
  /\ forall p, make_prefix dp ops template_type = Ret p ->
               contains (task_sentence (dp_nums dp) (dp_target dp) ops) p = true.
Proof.
  unfold make_prefix.
  destruct (String.eqb_spec template_type "base") as [->|Hbase];
    [|destruct (String.eqb_spec template_type "qwen-instruct") as [->|Hqwen]].
  - split; [split; eauto|]. intros p [= <-]. apply contains_spec.
    eexists _, _. unfold base_prefix.
    match goal with
    | |- ?a ++ nl ++ ?u ++ ?t ++ ?rest = _ =>
        change (a ++ nl ++ u ++ t ++ rest) with ((a ++ nl ++ u) ++ t ++ rest)
    end.
    reflexivity.
  - split; [split; eauto|]. intros p [= <-]. apply contains_spec.
    eexists _, _. unfold qwen_prefix.
    match goal with
    | |- ?a ++ nl ++ ?b ++ nl ++ ?c ++ nl ++ ?d ++ ?t ++ ?rest = _ =>
        change (a ++ nl ++ b ++ nl ++ c ++ nl ++ d ++ t ++ rest)
          with ((a ++ nl ++ b ++ nl ++ c ++ nl ++ d) ++ t ++ rest)
    end.
    reflexivity.
  - split; [|discriminate]. split.
    + intros [p Hp]. discriminate.
    + intros [H | H]; contradiction.
Qed.

(** ** The group index and the sizes *)

(** X2: with a group index outside [-4, 4) the call raises [IndexError],
    whatever the sizes and the state; a call that returns had its index in
    that range. *)
Theorem group_index_out_of_range (fuel : nat) (group_idx train_size test_size : Z)
    (w : world rng) :
  (~ - 4 <= group_idx < 4 ->
   generate_group_data fuel group_idx train_size test_size w = Raise IndexError)
  /\ forall r, generate_group_data fuel group_idx train_size test_size w = Ret r ->
               - 4 <= group_idx < 4.
Proof.
  split; [apply generate_group_data_bad_index|].
  intros r H.
  destruct (group_index_cases group_idx)
    as [(ops & name & Hin & _) | (Hbad & _)]; [exact Hin|].
  rewrite (generate_group_data_bad_index _ _ _ _ _ Hbad) in H. discriminate.
Qed.

(** X3: a train size that is zero or negative is no error: the call seeds
    the generator, draws nothing, never enters the retry loop and returns
    two empty splits. *)
Theorem nonpositive_size_gives_empty_splits (fuel : nat)
    (group_idx train_size test_size : Z) (w : world rng) :
  - 4 <= group_idx < 4 -> train_size <= 0 ->
  generate_group_data fuel group_idx train_size test_size w
  = Ret ([], [], {| rand_state := seed (42 + group_idx + 0);
                    rand_calls := (rand_calls w
                                   ++ [CallSeed (42 + group_idx + 0)])%list |}).
Proof.
  intros Hidx Hsize.
  destruct (group_index_cases group_idx)
    as [(ops & name & _ & Hops & Hname) | (Hbad & _)]; [|contradiction].
  rewrite (generate_group_data_pass _ _ _ _ _ _ _ Hops Hname).
  unfold generate_samples, bind, random_seed.
  replace (Z.to_nat train_size) with 0%nat by lia. reflexivity.
Qed.

(** X4: the only exception a call of [generate_group_data] raises is
    [IndexError]; the unbound [beam_size] is never read and the template is
    always known.  With a generator that answers in range and a group index
    in [-4, 4), the call raises nothing. *)
Theorem raises_index_error_only (fuel : nat) (group_idx train_size test_size : Z)
    (w : world rng) :
  (forall e, generate_group_data fuel group_idx train_size test_size w = Raise e ->
             e = IndexError)
  /\ (randbelow_in_range -> - 4 <= group_idx < 4 ->
      forall e, generate_group_data fuel group_idx train_size test_size w <> Raise e).
Proof.
  destruct (group_index_cases group_idx)
    as [(ops & name & Hin & Hops & Hname) | (Hbad & _)].
  - rewrite (generate_group_data_pass _ _ _ _ _ _ _ Hops Hname).
    split.
    + intros e H.
      destruct (generate_samples fuel ops group_idx train_size 0 w)
        as [[samples w']|e'|] eqn:Hgen.
      * destruct (create_dataset _ _ "train"); try discriminate.
        destruct (create_dataset _ _ "test"); discriminate.
      * injection H as ->.
        apply (raises_only_generate_samples (fun e => e = IndexError)
                 fuel ops group_idx train_size 0
                 (fun A seq _ => choice_raises_index seq) w e Hgen).
      * discriminate.
    + intros Hrange _ e H.
      destruct (generate_samples fuel ops group_idx train_size 0 w)
        as [[samples w']|e'|] eqn:Hgen.
      * destruct (create_dataset _ _ "train"); try discriminate.
        destruct (create_dataset _ _ "test"); discriminate.
      * apply (raises_only_generate_samples (fun _ => False)
                 fuel ops group_idx train_size 0
                 (fun A seq Hseq => choice_never_raises seq Hrange Hseq) w e' Hgen).
      * discriminate.
  - rewrite (generate_group_data_bad_index _ _ _ _ _ Hbad).
    split; [now intros e [= <-] | intros _ Hin; contradiction].
Qed.

(** ** The samples *)

(** X5: the search path of every sample is the trace of the search its
    [search_type] names, run with the heuristic its [heuristic] names on the
    target and the numbers of the sample itself: depth-first search with the
    target as threshold, or beam search with the width of the label. *)
Theorem search_path_matches_labels (fuel : nat) (ops : list string)
    (group_idx num_samples seed_offset : Z) (w : world rng)
    (samples : list (Sample (Solution E))) (w' : world rng) :
  generate_samples fuel ops group_idx num_samples seed_offset w = Ret (samples, w') ->
  Forall (fun x =>
            exists h,
              heuristic x = heuristic_name h
              /\ ((search_type x = "dfs"
                   /\ search_path x = dfs (target x) (nums x) h (target x))
                  \/ exists width,
                       In width [1; 2; 3; 4; 5]
                       /\ search_type x = "bfs_" ++ str_int width
                       /\ search_path x = bfs (target x) (nums x) width h))
         samples.
Proof.
  intros H. eapply generate_samples_Forall; [|exact H].
  clear H w w'. intros b w x b' w' H.
  apply sample_body_Ret in H
    as (size & goal & numbers & sol & h & search & w1 & w2 & w3 & w4 & H).
  cbv zeta in H.
  destruct H as (_ & _ & _ & _ & <- & <- & _ & _ & Hh & _ & Hlast).
  exists h. split; [exact Hh|]. destruct search.
  - left. destruct Hlast as (Hpath & Hty & _). auto.
  - right. destruct Hlast as (width & Hwidth & Hpath & Hty & _).
    exists width. repeat split; [eapply choice_In, Hwidth | exact Hty | exact Hpath].
Qed.

(** X6: with a generator that answers in range, the target of every sample
    lies between 10 and 1000, and its optimal path is rendered from its own
    target, numbers and solution by a [CountDown] object with
    [max_target] 1000, a start size of 3 or 4 and the operators of the
    group. *)
Theorem target_and_optimal_path (fuel : nat) (ops : list string)
    (group_idx num_samples seed_offset : Z) (w : world rng)
    (samples : list (Sample (Solution E))) (w' : world rng) :
  randbelow_in_range ->
  generate_samples fuel ops group_idx num_samples seed_offset w = Ret (samples, w') ->
  Forall (fun x =>
            10 <= target x <= 1000
            /\ exists size,
                 3 <= size <= 4
                 /\ optimal_path x
                    = convert_to_path
                        {| max_target := 1000; start_size := size;
                           operators := ops |}
                        (target x) (nums x) (solution x))
         samples.
Proof.
  intros Hrange H. eapply generate_samples_Forall; [|exact H].
  clear H w w'. intros b w x b' w' H.
  apply sample_body_Ret in H
    as (size & goal & numbers & sol & h & search & w1 & w2 & w3 & w4 & H).
  cbv zeta in H.
  destruct H as (Hsize & Hfind & _ & _ & <- & <- & <- & Hopt & _).
  split.
  - apply find_instance_target in Hfind as (wa & wb & Hdraw).
    apply (randint_range _ _ _ _ _ Hrange Hdraw).
  - exists size. split; [apply (randint_range _ _ _ _ _ Hrange Hsize) | exact Hopt].
Qed.

(** X7: the calls a pass makes on the generator, after its seed, are one
    block for each sample in order: [randint(3, 4)], one [randint(10, 1000)]
    for each iteration of the retry loop (at least one), two choices among
    two, and a choice among five exactly when the sample is a beam search. *)
Theorem calls_per_sample (fuel : nat) (ops : list string)
    (group_idx num_samples seed_offset : Z) (w : world rng)
    (samples : list (Sample (Solution E))) (w' : world rng) :
  generate_samples fuel ops group_idx num_samples seed_offset w = Ret (samples, w') ->
  exists attempts,
    List.length attempts = List.length samples
    /\ Forall (fun k => (1 <= k <= fuel)%nat) attempts
    /\ rand_calls w'
       = (rand_calls w
          ++ CallSeed (42 + group_idx + seed_offset)
             :: flat_map (fun p => sample_calls (fst p) (is_beam (snd p)))
                  (combine attempts samples))%list.
Proof.
  intros H. unfold generate_samples in H. step_in H.
  assert (Hw : rand_calls w0
               = (rand_calls w ++ [CallSeed (42 + group_idx + seed_offset)])%list)
    by (unfold random_seed in H0; injection H0 as _ <-; reflexivity).
  apply samples_loop_calls in H as (new & attempts & -> & Hn & Ha & Hall & Hcalls).
  exists attempts. cbn [app]. repeat split; [congruence | exact Hall |].
  rewrite Hcalls, Hw, <- app_assoc. reflexivity.
Qed.

(** X8: with a sound engine, every record of either split, whatever its
    group, is solvable with the four operators its prompt lists. *)
Theorem prompt_operators_suffice (fuel : nat) (group_idx train_size test_size : Z)
    (w : world rng) (train test : list (Row (Solution E))) (w' : world rng) :
  engine_sound ->
  generate_group_data fuel group_idx train_size test_size w = Ret (train, test, w') ->
  Forall (fun row =>
            let g := ground_truth (reward_model (fields row)) in
            solvable ["+"; "-"; "*"; "/"] (gt_numbers g) (gt_target g))
         (train ++ test)%list.
Proof.
  intros Hsound H. apply Forall_forall. intros row Hin.
  destruct (group_rows _ _ _ _ _ _ _ _ _ H Hin)
    as (ops & samples & split_name & k & Hops & Hgen & Hex & Hk).
  apply process_fn_Ret in Hk as (name & _ & Hk). rewrite Hk.
  cbn [reward_model ground_truth gt_numbers gt_target].
  apply (solvable_incl ops); [eapply operator_groups_vocabulary, Hops|].
  pose proof (generate_samples_Forall _ fuel ops
                (fun b w x b' w' => sample_solvable fuel ops b w x b' w' Hsound)
                _ _ _ _ _ _ Hgen) as Hall.
  rewrite Forall_forall in Hall. now apply Hall.
Qed.

(** ** The dataset *)

(** X9: the rows of a split are the samples in their order, and the ground
    truth of each row is its sample, field by field. *)
Theorem rows_follow_samples (group_idx : Z) (samples : list (Sample (Solution E)))
    (split_name : string) (rows : list (Row (Solution E))) :
  create_dataset group_idx samples split_name = Ret rows ->
  map example rows = samples
  /\ map (fun r => ground_truth (reward_model (fields r))) rows
     = map ground_truth_of samples.
Proof.
  intros H. rewrite create_dataset_unfold in H.
  pose proof (dataset_map_examples _ _ _ _ H) as Hex.
  split; [exact Hex|].
  rewrite <- Hex, map_map. apply map_ext_in. intros row Hin.
  destruct (dataset_map_In _ _ _ _ _ H Hin) as (k & _ & Hk).
  apply process_fn_Ret in Hk as (name & _ & ->). reflexivity.
Qed.

(** X10: every row of a split carries the name of the split, the name of
    the group at the index of the call, the constant tags, the search type
    and the heuristic of its sample, and one prompt message of the user. *)
Theorem rows_carry_provenance (group_idx : Z) (samples : list (Sample (Solution E)))
    (split_name : string) (rows : list (Row (Solution E))) :
  create_dataset group_idx samples split_name = Ret rows ->
  Forall (fun row =>
            let t := fields row in
            split (extra_info t) = split_name
            /\ py_index group_names group_idx = Ret (operator_group (extra_info t))
            /\ ei_search_type (extra_info t) = search_type (example row)
            /\ ei_heuristic (extra_info t) = heuristic (example row)
            /\ data_source t = "countdown_continual"
            /\ ability t = "math"
            /\ style (reward_model t) = "rule"
            /\ map role (prompt t) = ["user"])
         rows.
Proof.
  intros H. rewrite create_dataset_unfold in H.
  apply Forall_forall. intros row Hin.
  destruct (dataset_map_In _ _ _ _ _ H Hin) as (k & _ & Hk).
  apply process_fn_Ret in Hk as (name & Hname & ->).
  cbv zeta. cbn. repeat split. exact Hname.
Qed.

(** ** Calls in sequence *)

(** X11: how a call of [generate_group_data] ends does not depend on the
    state the generator is in: from any two states it returns the same
    datasets, or raises the same exception, or exhausts the same bound; and
    when it returns, it leaves the same generator state from both.  Nothing
    is said of the state after a raise: a call that fails on the group index
    has not seeded the generator. *)
Theorem group_data_ambient (fuel : nat) (group_idx train_size test_size : Z)
    (w1 w2 : world rng) :
  agree (generate_group_data fuel group_idx train_size test_size w1)
        (generate_group_data fuel group_idx train_size test_size w2)
  /\ forall d w1',
       generate_group_data fuel group_idx train_size test_size w1 = Ret (d, w1') ->
       exists w2',
         generate_group_data fuel group_idx train_size test_size w2 = Ret (d, w2')
         /\ rand_state w2' = rand_state w1'.
Proof.
  pose proof (generate_group_data_agree fuel group_idx train_size test_size w1 w2)
    as Hag.
  split; [exact Hag|]. intros d w1' H. rewrite H in Hag.
  destruct (generate_group_data fuel group_idx train_size test_size w2)
    as [[d2 w2']| |]; try contradiction.
  destruct Hag as [<- Hst]. eauto.
Qed.

(** X12: in the loop of the script the groups do not influence one another:
    the datasets the loop produces for a group are those a call for that
    group alone returns from any state.  The script is this loop on the
    indices 0 to 3 with the sizes 7680. *)
Theorem groups_do_not_interfere (fuel : nat) (train_size test_size : Z)
    (idxs : list Z) (w : world rng)
    (ds : list (list (Row (Solution E)) * list (Row (Solution E))))
    (w' : world rng) :
  main fuel = run_groups fuel 7680 7680 [0; 1; 2; 3]
  /\ (run_groups fuel train_size test_size idxs w = Ret (ds, w') ->
      Forall2 (fun group_idx d =>
                 forall w0, exists w0',
                   generate_group_data fuel group_idx train_size test_size w0
                   = Ret (d, w0'))
              idxs ds).
Proof.
  split; [reflexivity|].
  revert w ds. induction idxs as [|group_idx rest IH]; intros w ds H.
  - cbn [run_groups] in H. apply ret_Ret in H as [-> _]. constructor.
  - apply run_groups_Ret in H as (d & others & w1 & -> & Hd & Hrest).
    constructor; [|eapply IH, Hrest].
    intros w0.
    pose proof (generate_group_data_agree fuel group_idx train_size test_size w w0)
      as Hag.
    rewrite Hd in Hag.
    destruct (generate_group_data fuel group_idx train_size test_size w0)
      as [[d0 w0']| |]; try contradiction.
    destruct Hag as [<- _]. eauto.
Qed.

(** X13: the loop of the script seeds the generator once for each group, in
    the order of the groups, with 42 plus the index of the group. *)
Theorem one_seed_per_group (fuel : nat) (train_size test_size : Z)
    (idxs : list Z) (w : world rng)
    (ds : list (list (Row (Solution E)) * list (Row (Solution E))))
    (w' : world rng) :
  run_groups fuel train_size test_size idxs w = Ret (ds, w') ->
  exists calls,
    rand_calls w' = (rand_calls w ++ calls)%list
    /\ filter is_seed calls = map (fun group_idx => CallSeed (42 + group_idx + 0)) idxs
    /\ List.length ds = List.length idxs.
Proof.
  revert w ds. induction idxs as [|group_idx rest IH]; intros w ds H.
  - cbn [run_groups] in H. apply ret_Ret in H as [-> ->].
    exists []. now rewrite app_nil_r.
  - apply run_groups_Ret in H as (d & others & w1 & -> & Hd & Hrest).
    apply generate_group_data_log in Hd as (draws & Hlog & Hno).
    apply IH in Hrest as (calls & Hcalls & Hseeds & Hlen).
    exists (CallSeed (42 + group_idx + 0) :: draws ++ calls)%list.
    repeat split.
    + rewrite Hcalls, Hlog, <- app_assoc. reflexivity.
    + cbn [filter is_seed map]. f_equal.
      rewrite filter_app, (no_seed_filter _ Hno). exact Hseeds.
    + cbn [List.length]. now rewrite Hlen.
Qed.

End Further.

(** * The claims on the small engine *)

Lemma demo_sum_expr_leaves (acc : expr) (l : list Z) :
  leaves (Demo.sum_expr acc l) = (leaves acc ++ l)%list.
Proof.
  revert acc. induction l as [|x l IH]; intros acc; cbn [Demo.sum_expr].
  - now rewrite app_nil_r.
  - rewrite IH. cbn [leaves]. now rewrite <- app_assoc.
Qed.

Lemma demo_sum_expr_operators (acc : expr) (l : list Z) (ops : list string) :
  In "+" ops -> incl (operators_used acc) ops ->
  incl (operators_used (Demo.sum_expr acc l)) ops.
Proof.
  intros Hplus. revert acc. induction l as [|x l IH]; intros acc Hacc;
    cbn [Demo.sum_expr]; [exact Hacc|].
  apply IH. cbn [operators_used]. rewrite app_nil_r.
  intros o [<- | Ho]; [exact Hplus | now apply Hacc].
Qed.

Lemma demo_sum_expr_eval (acc : expr) (l : list Z) (a : Z) :
  eval acc = Some a ->
  eval (Demo.sum_expr acc l) = Some (a + fold_right Z.add 0 l).
Proof.
  revert acc a. induction l as [|x l IH]; intros acc a Hacc; cbn [Demo.sum_expr fold_right].
  - rewrite Hacc. f_equal. lia.
  - rewrite (IH _ (a + x)).
    + f_equal. lia.
    + cbn [eval]. now rewrite Hacc.
Qed.

Lemma demo_padding_sum (n : nat) : fold_right Z.add 0 (repeat 0 n) = 0.
Proof. induction n as [|n IH]; cbn [repeat fold_right]; [reflexivity | now rewrite IH]. Qed.

(** The small engine keeps the contract of the Puzzle Engine. *)
Lemma demo_engine_sound : @engine_sound Z Demo.engine.
Proof.
  intros cd goal s numbers sol s' H.
  cbn [generate Demo.engine] in H. unfold Demo.toy_generate in H.
  destruct (randbelow 3 s) as [r s1].
  destruct (r =? 0) eqn:Hr; [discriminate|]. cbn [orb] in H.
  destruct (existsb (String.eqb "+") (operators cd)) eqn:Hplus; [|discriminate].
  cbn [negb] in H. injection H as <- <- <-.
  assert (Hin : In "+" (operators cd)).
  { apply existsb_exists in Hplus as (o & Ho & Heq).
    apply String.eqb_eq in Heq. now subst o. }
  exists (Demo.sum_expr (Num (goal - r))
            (r :: repeat 0 (Z.to_nat (start_size cd - 2)))).
  split; [|split].
  - rewrite demo_sum_expr_leaves. cbn [leaves app]. apply Permutation_refl.
  - apply demo_sum_expr_operators; [exact Hin|]. intros o [].
  - rewrite (demo_sum_expr_eval _ _ (goal - r)); [|reflexivity].
    cbn [fold_right]. rewrite demo_padding_sum. f_equal. lia.
Qed.

(** The instance of section 8 of the spec: 24 from 4, 6 and 1. *)
Example solvable_24 : solvable ["+"; "-"; "*"; "/"] [4; 6; 1] 24.
Proof.
  exists (Op "*" (Op "*" (Num 4) (Num 6)) (Num 1)).
  split; [apply Permutation_refl|]. split; [|reflexivity].
  intros o Ho. cbn in Ho. cbn. intuition.
Qed.

Lemma generation_deterministic_witness :
  exists r1 w1' r2 w2',
    Demo.pass 5 Demo.w0 = Ret (r1, w1')
    /\ Demo.pass 8 Demo.w1 = Ret (r2, w2')
    /\ r1 = r2 /\ rand_state w1' = rand_state w2'.
Proof.
  eexists _, _, _, _.
  split; [vm_compute; reflexivity|].
  split; [vm_compute; reflexivity|].
  eapply (proj2 (@generation_deterministic Z Demo.lcg Demo.engine 5 8
                   ["+"; "-"] 1 3 0 Demo.w0 Demo.w1));
    vm_compute; reflexivity.
Defined.

Lemma seeded_once_per_pass_witness :
  exists samples w',
    Demo.pass 5 Demo.w1 = Ret (samples, w')
    /\ exists draws,
         rand_calls w' = (rand_calls Demo.w1 ++ CallSeed (42 + 1 + 0) :: draws)%list
         /\ no_seed draws = true.
Proof.
  eexists _, _.
  split; [vm_compute; reflexivity|].
  eapply (@seeded_once_per_pass Z Demo.lcg Demo.engine 5
            ["+"; "-"] 1 3 0 Demo.w1).
  vm_compute; reflexivity.
Defined.

Lemma generated_instances_solvable_witness :
  exists samples w',
    @engine_sound Z Demo.engine
    /\ Demo.pass 5 Demo.w0 = Ret (samples, w')
    /\ Forall (fun x => solvable ["+"; "-"] (nums x) (target x)) samples.
Proof.
  eexists _, _.
  split; [exact demo_engine_sound|].
  split; [vm_compute; reflexivity|].
  eapply Forall_impl;
    [|eapply (@generated_instances_solvable Z Demo.lcg Demo.engine 5
                ["+"; "-"] 1 3 0 Demo.w0 _ _ demo_engine_sound);
      vm_compute; reflexivity].
  intros x [_ H]. exact H.
Defined.

Lemma search_type_label_witness :
  exists samples w',
    Demo.pass 5 Demo.w0 = Ret (samples, w')
    /\ @labelled_run Z Demo.lcg Demo.engine 5 ["+"; "-"]
         {| rand_state := seed (Random:=Demo.lcg) (42 + 1 + 0);
            rand_calls := (rand_calls Demo.w0 ++ [CallSeed (42 + 1 + 0)])%list |}
         samples w'
    /\ map search_type samples = ["bfs_2"; "dfs"; "bfs_5"].
Proof.
  eexists _, _.
  match goal with
  | |- ?A /\ _ => assert (Hrun : A) by (vm_compute; reflexivity)
  end.
  split; [exact Hrun|].
  split; [|vm_compute; reflexivity].
  exact (proj1 (@search_type_label Z Demo.lcg Demo.engine 5 ["+"; "-"] 1 3 0
                  Demo.w0 _ _ Hrun)).
Defined.

Lemma rating_correct_witness :
  exists train test w',
    Demo.group 3 = Ret (train, test, w')
    /\ Forall (fun row =>
                 let g := ground_truth (reward_model (fields row)) in
                 gt_rating g = 1%float
                 <-> exists pre post, gt_search_path g = pre ++ "Goal Reached" ++ post)
              (train ++ test)%list.
Proof.
  eexists _, _, _.
  split; [vm_compute; reflexivity|].
  eapply Forall_impl;
    [|eapply (@rating_correct Z Demo.lcg Demo.engine 5 1 3 3 Demo.w0 _ _ _);
      vm_compute; reflexivity].
  intros row H. apply H.
Defined.

Lemma prompt_lists_all_operators_witness :
  exists train test w',
    Demo.group 3 = Ret (train, test, w')
    /\ Forall (fun row =>
                 let g := ground_truth (reward_model (fields row)) in
                 prompt (fields row)
                 = [ {| role := "user";
                        content := base_prefix (gt_numbers g) (gt_target g)
                                     ["+"; "-"; "*"; "/"] |} ])
              (train ++ test)%list.
Proof.
  eexists _, _, _.
  split; [vm_compute; reflexivity|].
  eapply Forall_impl;
    [|eapply (@prompt_lists_all_operators Z Demo.lcg Demo.engine 5 1 3 3 Demo.w0 _ _ _);
      vm_compute; reflexivity].
  intros row [_ H]. cbv zeta. cbn [make_prefix String.eqb Ascii.eqb Bool.eqb
    Outcome.map Outcome.bind dp_target dp_nums] in H.
  now injection H as <-.
Defined.

Lemma index_contiguous_witness :
  exists samples w' rows,
    Demo.pass 5 Demo.w0 = Ret (samples, w')
    /\ create_dataset (E:=Demo.engine) 1 samples "test" = Ret rows
    /\ indices rows = [0; 1; 2].
Proof.
  eexists _, _, _.
  split; [vm_compute; reflexivity|].
  match goal with
  | |- ?A /\ _ => assert (Hrows : A) by (vm_compute; reflexivity)
  end.
  split; [exact Hrows|].
  etransitivity;
    [exact (proj1 (index_contiguous _ _ _ _ Hrows)) | reflexivity].
Defined.

Lemma test_split_is_train_split_witness :
  exists train test w',
    Demo.group 3 = Ret (train, test, w')
    /\ test = map (with_split "test") train
    /\ Forall (fun r => split (extra_info (fields r)) = "train") train.
Proof.
  eexists _, _, _.
  match goal with
  | |- ?A /\ _ => assert (Hrun : A) by (vm_compute; reflexivity)
  end.
  split; [exact Hrun|].
  destruct (@test_split_is_train_split Z Demo.lcg Demo.engine 5 1 3 3 Demo.w0
              _ _ _ Hrun) as (Htest & Htag & _).
  split; [exact Htest | exact Htag].
Defined.

Lemma test_size_ignored_witness :
  exists train test w',
    Demo.group 7 = Ret (train, test, w')
    /\ 0 <= 3
    /\ Z.of_nat (List.length test) = 3.
Proof.
  eexists _, _, _.
  split; [vm_compute; reflexivity|].
  split; [lia|].
  eapply (proj2 (@test_size_ignored Z Demo.lcg Demo.engine 5 1 3 7 Demo.w0));
    [vm_compute; reflexivity | lia].
Defined.

(** * The further properties on the small engine *)

(** The small generator answers in range. *)
Lemma demo_lcg_in_range : @randbelow_in_range Z Demo.lcg.
Proof.
  intros n s Hn. cbn [randbelow Demo.lcg fst].
  apply Z.mod_pos_bound. exact Hn.
Qed.

Lemma make_prefix_templates_witness :
  exists p,
    make_prefix {| dp_target := 24; dp_nums := [4; 6; 1] |}
                ["+"; "-"] "qwen-instruct" = Ret p
    /\ contains (task_sentence [4; 6; 1] 24 ["+"; "-"]) p = true.
Proof.
  eexists.
  match goal with
  | |- ?A /\ _ => assert (Hrun : A) by reflexivity
  end.
  split; [exact Hrun|].
  exact (proj2 (make_prefix_templates {| dp_target := 24; dp_nums := [4; 6; 1] |}
                  ["+"; "-"] "qwen-instruct") _ Hrun).
Defined.

Lemma group_index_out_of_range_witness :
  ~ - 4 <= 7 < 4
  /\ @generate_group_data Z Demo.lcg Demo.engine 5 7 3 3 Demo.w0 = Raise IndexError.
Proof.
  assert (Hbad : ~ - 4 <= 7 < 4) by lia.
  split; [exact Hbad|].
  exact (proj1 (@group_index_out_of_range Z Demo.lcg Demo.engine 5 7 3 3 Demo.w0)
           Hbad).
Defined.

Lemma nonpositive_size_gives_empty_splits_witness :
  - 4 <= -1 < 4 /\ -2 <= 0
  /\ @generate_group_data Z Demo.lcg Demo.engine 0 (-1) (-2) 9 Demo.w1
     = Ret ([], [], {| rand_state := 41; rand_calls := [CallSeed 5; CallSeed 41] |}).
Proof.
  assert (Hidx : - 4 <= -1 < 4) by lia.
  assert (Hsize : -2 <= 0) by lia.
  split; [exact Hidx|]. split; [exact Hsize|].
  exact (@nonpositive_size_gives_empty_splits Z Demo.lcg Demo.engine 0 (-1) (-2) 9
           Demo.w1 Hidx Hsize).
Defined.

Lemma raises_index_error_only_witness :
  @generate_group_data Z Demo.lcg Demo.engine 5 4 3 3 Demo.w0 = Raise IndexError
  /\ @randbelow_in_range Z Demo.lcg
  /\ - 4 <= 1 < 4
  /\ Demo.group 3 <> Raise UnboundLocalError.
Proof.
  assert (Hraise : @generate_group_data Z Demo.lcg Demo.engine 5 4 3 3 Demo.w0
                   = Raise IndexError) by reflexivity.
  assert (Hidx : - 4 <= 1 < 4) by lia.
  split; [exact Hraise|]. split; [exact demo_lcg_in_range|]. split; [exact Hidx|].
  exact (proj2 (@raises_index_error_only Z Demo.lcg Demo.engine 5 1 3 3 Demo.w0)
           demo_lcg_in_range Hidx UnboundLocalError).
Defined.

Lemma search_path_matches_labels_witness :
  exists samples w',
    Demo.pass 5 Demo.w0 = Ret (samples, w')
    /\ Forall (fun x =>
                 exists h,
                   heuristic x = heuristic_name h
                   /\ ((search_type x = "dfs"
                        /\ search_path x
                           = dfs (PuzzleEngine:=Demo.engine)
                               (target x) (nums x) h (target x))
                       \/ exists width,
                            In width [1; 2; 3; 4; 5]
                            /\ search_type x = "bfs_" ++ str_int width
                            /\ search_path x
                               = bfs (PuzzleEngine:=Demo.engine)
                                   (target x) (nums x) width h))
              samples.
Proof.
  eexists _, _.
  match goal with
  | |- ?A /\ _ => assert (Hrun : A) by (vm_compute; reflexivity)
  end.
  split; [exact Hrun|].
  exact (@search_path_matches_labels Z Demo.lcg Demo.engine 5 ["+"; "-"] 1 3 0
           Demo.w0 _ _ Hrun).
Defined.

Lemma target_and_optimal_path_witness :
  exists samples w',
    @randbelow_in_range Z Demo.lcg
    /\ Demo.pass 5 Demo.w0 = Ret (samples, w')
    /\ Forall (fun x => 10 <= target x <= 1000) samples.
Proof.
  eexists _, _.
  split; [exact demo_lcg_in_range|].
  match goal with
  | |- ?A /\ _ => assert (Hrun : A) by (vm_compute; reflexivity)
  end.
  split; [exact Hrun|].
  eapply Forall_impl;
    [|exact (@target_and_optimal_path Z Demo.lcg Demo.engine 5 ["+"; "-"] 1 3 0
               Demo.w0 _ _ demo_lcg_in_range Hrun)].
  intros x [Hx _]. exact Hx.
Defined.

Lemma calls_per_sample_witness :
  exists samples w' attempts,
    Demo.pass 5 Demo.w0 = Ret (samples, w')
    /\ List.length attempts = List.length samples
    /\ rand_calls w'
       = (rand_calls Demo.w0
          ++ CallSeed (42 + 1 + 0)
             :: flat_map (fun p => sample_calls (fst p) (is_beam (snd p)))
                  (combine attempts samples))%list.
Proof.
  assert (Hrun : exists samples w', Demo.pass 5 Demo.w0 = Ret (samples, w'))
    by (eexists _, _; vm_compute; reflexivity).
  destruct Hrun as (samples & w' & Hrun).
  destruct (@calls_per_sample Z Demo.lcg Demo.engine 5 ["+"; "-"] 1 3 0
              Demo.w0 samples w' Hrun) as (attempts & Hlen & _ & Hcalls).
  exists samples, w', attempts. auto.
Defined.

Lemma prompt_operators_suffice_witness :
  exists train test w',
    @engine_sound Z Demo.engine
    /\ Demo.group 3 = Ret (train, test, w')
    /\ Forall (fun row =>
                 let g := ground_truth (reward_model (fields row)) in
                 solvable ["+"; "-"; "*"; "/"] (gt_numbers g) (gt_target g))
              (train ++ test)%list.
Proof.
  eexists _, _, _.
  split; [exact demo_engine_sound|].
  match goal with
  | |- ?A /\ _ => assert (Hrun : A) by (vm_compute; reflexivity)
  end.
  split; [exact Hrun|].
  exact (@prompt_operators_suffice Z Demo.lcg Demo.engine 5 1 3 3 Demo.w0 _ _ _
           demo_engine_sound Hrun).
Defined.

Lemma rows_follow_samples_witness :
  exists samples w' rows,
    Demo.pass 5 Demo.w0 = Ret (samples, w')
    /\ create_dataset (E:=Demo.engine) 1 samples "train" = Ret rows
    /\ map example rows = samples.
Proof.
  eexists _, _, _.
  split; [vm_compute; reflexivity|].
  match goal with
  | |- ?A /\ _ => assert (Hrows : A) by (vm_compute; reflexivity)
  end.
  split; [exact Hrows|].
  exact (proj1 (rows_follow_samples _ _ _ _ Hrows)).
Defined.

Lemma rows_carry_provenance_witness :
  exists samples w' rows,
    Demo.pass 5 Demo.w0 = Ret (samples, w')
    /\ create_dataset (E:=Demo.engine) 1 samples "test" = Ret rows
    /\ Forall (fun row =>
                 split (extra_info (fields row)) = "test"
                 /\ operator_group (extra_info (fields row)) = "plus_minus")
              rows.
Proof.
  eexists _, _, _.
  split; [vm_compute; reflexivity|].
  match goal with
  | |- ?A /\ _ => assert (Hrows : A) by (vm_compute; reflexivity)
  end.
  split; [exact Hrows|].
  eapply Forall_impl; [|exact (rows_carry_provenance _ _ _ _ Hrows)].
  intros row (Hsplit & Hname & _). cbv zeta in Hsplit, Hname.
  split; [exact Hsplit|].
  change (py_index group_names 1) with (Ret "plus_minus") in Hname.
  injection Hname as Hname. symmetry. exact Hname.
Defined.

Lemma group_data_ambient_witness :
  exists d w1' w2',
    Demo.group 3 = Ret (d, w1')
    /\ @generate_group_data Z Demo.lcg Demo.engine 5 1 3 3 Demo.w1 = Ret (d, w2')
    /\ rand_state w2' = rand_state w1'.
Proof.
  assert (Hrun : exists d w1', Demo.group 3 = Ret (d, w1'))
    by (eexists _, _; vm_compute; reflexivity).
  destruct Hrun as (d & w1' & Hrun).
  destruct (proj2 (@group_data_ambient Z Demo.lcg Demo.engine 5 1 3 3
                     Demo.w0 Demo.w1) d w1' Hrun) as (w2' & H2 & Hst).
  exists d, w1', w2'. auto.
Defined.

Lemma groups_do_not_interfere_witness :
  exists ds w',
    @run_groups Z Demo.lcg Demo.engine 5 2 2 [0; 1; 2; 3] Demo.w1 = Ret (ds, w')
    /\ Forall2 (fun group_idx d =>
                  forall w0, exists w0',
                    @generate_group_data Z Demo.lcg Demo.engine 5 group_idx 2 2 w0
                    = Ret (d, w0'))
               [0; 1; 2; 3] ds.
Proof.
  eexists _, _.
  match goal with
  | |- ?A /\ _ => assert (Hrun : A) by (vm_compute; reflexivity)
  end.
  split; [exact Hrun|].
  exact (proj2 (@groups_do_not_interfere Z Demo.lcg Demo.engine 5 2 2
                  [0; 1; 2; 3] Demo.w1 _ _) Hrun).
Defined.

Lemma one_seed_per_group_witness :
  exists ds w' calls,
    @run_groups Z Demo.lcg Demo.engine 5 2 2 [0; 1; 2; 3] Demo.w0 = Ret (ds, w')
    /\ rand_calls w' = (rand_calls Demo.w0 ++ calls)%list
    /\ filter is_seed calls = [CallSeed 42; CallSeed 43; CallSeed 44; CallSeed 45].
Proof.
  assert (Hrun : exists ds w',
             @run_groups Z Demo.lcg Demo.engine 5 2 2 [0; 1; 2; 3] Demo.w0
             = Ret (ds, w'))
    by (eexists _, _; vm_compute; reflexivity).
  destruct Hrun as (ds & w' & Hrun).
  destruct (@one_seed_per_group Z Demo.lcg Demo.engine 5 2 2 [0; 1; 2; 3]
              Demo.w0 ds w' Hrun) as (calls & Hcalls & Hseeds & _).
  exists ds, w', calls. auto.
Defined.
